(** * air_screw.js: blade-element performance of an airscrew

    A shallow embedding of [src/air_screw.js] (both program variants of the
    file) and the properties of its four functions: [interp],
    [getSpeedDistribution], [getSingleBladeForces] and
    [getSpeedThrustPerformance].

    - JavaScript numbers are IEEE-754 binary64 values; they are modelled by
      Rocq's primitive [float], whose operations [+ - * / sqrt <?] are the
      correctly rounded binary64 operations the engine performs.  Equality
      of two [float]s is equality of their bits ([+0] and [-0] differ, NaN
      is one value); [=?] is the comparison [===] of the language.
    - Arrays of numbers are lists; a read out of range gives [undefined],
      which arithmetic and comparisons turn into NaN.
    - A [for] loop is a recursion on the number of iterations left; the
      counts [N] (a length) and [nV] (a number of steps) are naturals.
    - [Math.atan] is a parameter of the development (class [Math]); concrete
      runs are evaluated on the reference engine [fdlibm]. *)

From Stdlib Require Import List ZArith Lia Bool.

From Stdlib Require String.

From Stdlib Require Import Floats.

Import ListNotations.

Set Implicit Arguments.

Set Warnings "-inexact-float".

Local Open Scope float_scope.

(** ** JavaScript values *)

Module JS.

(** The values the program manipulates: numbers, and [undefined] (what an
    array read out of range yields, and what a function returns when it
    falls off its end). *)
Inductive value : Type :=
| Num (f : float)
| Undefined.

(** ToNumber: [undefined] becomes NaN in arithmetic and in comparisons. *)
Definition to_number (v : value) : float :=
  match v with
  | Num f => f
  | Undefined => nan
  end.

(** [a[i]] on an array of numbers. *)
Definition get (a : list float) (i : nat) : value :=
  match nth_error a i with
  | Some f => Num f
  | None => Undefined
  end.

(** [a > b] on numbers is [b < a]; it is false as soon as one side is NaN. *)
Definition gt (a b : float) : bool := b <? a.

(** An integer such as [a.length] or a loop bound as a number (exact below
    2^53; array lengths are below 2^32). *)
Definition of_nat (n : nat) : float :=
  of_uint63 (Uint63.of_Z (Z.of_nat n)).

(** [Math.PI], the binary64 value nearest to pi. *)
Definition PI : float := 0x1.921fb54442d18p+1.

(** [a.length ? _ : _]: an array length is truthy when it is not zero. *)
Definition truthy_length (a : list float) : bool :=
  match a with
  | [] => false
  | _ :: _ => true
  end.

(** How a call completes: with a value, or by a thrown exception. *)
Inductive completion (A : Type) : Type :=
| Normal (v : A)
| Throw (msg : String.string).

Arguments Normal {A} v.

Arguments Throw {A} msg.

(** The program has no [throw] statement and, on arrays of numbers, performs
    no operation that raises: calling one of its functions completes
    normally with the value the function computes. *)
Definition call {A B : Type} (f : A -> B) (a : A) : completion B :=
  Normal (f a).

End JS.

Import JS.

(** ** [Math.atan] *)

(** ECMA-262 leaves [Math.atan] implementation-approximated and fixes only
    its values at NaN and at the two zeros (the result is NaN, [+0] and
    [-0] respectively). *)
Class Math : Type := {
  atan : float -> float;
  atan_nan : atan nan = nan;
  atan_pos_zero : atan 0 = 0;
  atan_neg_zero : atan (-0) = -0
}.

(** A reference engine: the fdlibm algorithm (argument reduction to
    [|x| < 7/16] followed by an odd polynomial), on which concrete runs of
    the program are evaluated. *)
Module Fdlibm.

Definition atanhi (id : nat) : float :=
  match id with
  | 0%nat => 4.63647609000806093515e-01
  | 1%nat => 7.85398163397448278999e-01
  | 2%nat => 9.82793723247329054082e-01
  | _ => 1.57079632679489655800e+00
  end.

Definition atanlo (id : nat) : float :=
  match id with
  | 0%nat => 2.26987774529616870924e-17
  | 1%nat => 3.06161699786838301793e-17
  | 2%nat => 1.39033110312309984516e-17
  | _ => 6.12323399573676603587e-17
  end.

Definition poly (x : float) : float :=
  let z := x * x in
  let w := z * z in
  let s1 := z * (3.33333333333329318027e-01
             + w * (1.42857142725034663711e-01
             + w * (9.09088713343650656196e-02
             + w * (6.66107313738753120669e-02
             + w * (4.97687799461593236017e-02
             + w * 1.62858201153657823623e-02))))) in
  let s2 := w * (-1.99999999998764832476e-01
             + w * (-1.11111104054623557880e-01
             + w * (-7.69187620504482999495e-02
             + w * (-5.83357013379057348645e-02
             + w * -3.65315727442169155270e-02)))) in
  s1 + s2.

Definition reduced (id : nat) (neg : bool) (x : float) : float :=
  let z := atanhi id - ((x * poly x - atanlo id) - x) in
  if neg then - z else z.

Definition atan (x : float) : float :=
  let a := abs x in
  let neg := get_sign x in
  if is_nan x then x + x
  else if 0x1p+66 <=? a then
    if neg then - atanhi 3 - atanlo 3 else atanhi 3 + atanlo 3
  else if a <? 0.4375 then
    if a <? 0x1p-29 then x else x - x * poly x
  else if a <? 0.6875 then reduced 0 neg ((2 * a - 1) / (2 + a))
  else if a <? 1.1875 then reduced 1 neg ((a - 1) / (a + 1))
  else if a <? 2.4375 then reduced 2 neg ((a - 1.5) / (1 + 1.5 * a))
  else reduced 3 neg (-1 / a).

End Fdlibm.

#[export] Instance fdlibm : Math.
Proof. refine {| atan := Fdlibm.atan |}; reflexivity. Defined.

(** ** [interp]: one-dimensional linear interpolation (lines 19-30) *)

(** The [for] loop of [interp] with [n] iterations left, at the indices [i]
    and [i1]; falling off the loop returns [undefined]. *)
Fixpoint interp_loop (VX VY : list float) (X : float) (n i i1 : nat) : value :=
  match n with
  | O => Undefined
  | S n' =>
      if gt (to_number (get VX i1)) X then
        let dX := X - to_number (get VX i) in
        let k := (to_number (get VY i1) - to_number (get VY i))
                 / (to_number (get VX i1) - to_number (get VX i)) in
        Num (to_number (get VY i) + k * dX)
      else interp_loop VX VY X n' (S i) (S i1)
  end.

Definition interp (VX VY : list float) (X : float) : value :=
  let size := length VX in
  interp_loop VX VY X size 0 1.

(** ** Records the program builds *)

(** One entry of [getSpeedDistribution]'s result. *)
Record SectionSample : Type := {
  range : float;
  localVelocity : float;
  localAoA : float
}.

(** One entry of [forceDistribution]. *)
Record SectionForce : Type := {
  thrust : float;
  drag : float;
  torque : float
}.

Record Summary : Type := {
  totalThrust : float;
  totalDrag : float;
  totalTorque : float
}.

(** The result of [getSingleBladeForces]. *)
Record BladeForces : Type := {
  speedDistribution : list SectionSample;
  forceDistribution : list SectionForce;
  summary : Summary
}.

(** One entry of [getSpeedThrustPerformance]'s result. *)
Module Point.

Record t : Type := {
  V : float;
  thrust : float;
  torque : float;
  power : float;
  thrustCoeff : float;
  thrust2power : float
}.

End Point.

(** ** Configuration *)

(** [initData.geometry]; [VX] and [dAVX] may be absent. *)
Record Geometry : Type := {
  nBlade : float;
  RX : list float;
  SX : list float;
  AX : list float;
  VX : option (list float);
  dAVX : option (list float)
}.

(** [initData.environment]; [nV] is a count of steps. *)
Record Environment : Type := {
  RPM : float;
  v0 : float;
  v1 : float;
  nV : nat;
  Ro : float
}.

(** A destructuring default: [{ x = d } = o]. *)
Definition or_default {A : Type} (d : A) (o : option A) : A :=
  match o with
  | Some a => a
  | None => d
  end.

(** ** Loops common to the two variants of the program *)

(** The loop of [getSpeedDistribution] (lines 41-53 and 256-268) with [n]
    iterations left. *)
Fixpoint speed_loop `{Math} (omega v0 dR : float) (n : nat) (localR : float)
  : list SectionSample :=
  match n with
  | O => []
  | S n' =>
      let localV := omega * localR in
      let totalV := sqrt (v0 * v0 + localV * localV) in
      let localAoA := - atan (v0 / localV) in
      {| range := localR;
         localVelocity := totalV;
         localAoA := localAoA * 57.3 |}
      :: speed_loop omega v0 dR n' (localR + dR)
  end.

(** The loop of [getSingleBladeForces] (lines 86-109 and 301-323). It reads
    [speedDistribution[i]] for [i < N], and [speedDistribution] has [N]
    entries, so it is a traversal of that list; [section] is the part of the
    body that computes one section's forces, [acc] the three running
    totals. *)
Fixpoint force_loop (section : SectionSample -> SectionForce)
  (samples : list SectionSample) (acc : Summary)
  : list SectionForce * Summary :=
  match samples with
  | [] => ([], acc)
  | s :: rest =>
      let f := section s in
      let acc' :=
        {| totalThrust := totalThrust acc + thrust f;
           totalDrag := totalDrag acc + totalDrag acc;
           totalTorque := totalTorque acc + torque f |} in
      let (fs, out) := force_loop section rest acc' in
      (f :: fs, out)
  end.

(** The loop of [getSpeedThrustPerformance] (lines 139-160 and 353-374) with
    [n] iterations left; [blade V] is the summary of one blade at speed [V]. *)
Fixpoint sweep_loop (blade : float -> Summary)
  (nBlade omega area Ro dV : float) (n : nat) (V : float) : list Point.t :=
  match n with
  | O => []
  | S n' =>
      let s := blade V in
      let Q := 0.5 * Ro * V * V in
      let thrust := totalThrust s * nBlade in
      let torque := totalTorque s * nBlade in
      let power := torque * omega in
      let thrustCoeff := thrust / (area * Q) in
      {| Point.V := V * 3.6;
         Point.thrust := thrust;
         Point.torque := torque;
         Point.power := power;
         Point.thrustCoeff := thrustCoeff;
         Point.thrust2power := thrust / power |}
      :: sweep_loop blade nBlade omega area Ro dV n' (V + dV)
  end.

(** ** First variant (lines 1-215): revolutions per second, polar drag *)

Module Variant1.

Record Aerodynamics : Type := {
  AX_CY : list float;
  Cx0 : float;
  CY : list float;
  POLAR : list float
}.

Record InitData : Type := {
  geometry : Geometry;
  aerodynamics : Aerodynamics;
  environment : Environment
}.

Definition angular_speed (RPM : float) : float := 2 * PI * RPM.

Definition getSpeedDistribution `{Math} (RPM R v0 : float) (N : nat)
  : list SectionSample :=
  let omega := angular_speed RPM in
  let dR := R / of_nat N in
  let localR := dR * 0.5 in
  speed_loop omega v0 dR N localR.

(** Lines 87-98: the forces of one section. *)
Definition section_force (RX AX SX : list float) (Cx0 Ro : float)
  (AX_CY CY POLAR : list float) (dAlpha : value) (s : SectionSample)
  : SectionForce :=
  let localQ := 0.5 * Ro * localVelocity s * localVelocity s in
  let bladeSectionArea := interp RX SX (range s) in
  let bladeSectionAoA := interp RX AX (range s) in
  let localQS := to_number bladeSectionArea * localQ in
  let totalAoA := to_number bladeSectionAoA + localAoA s + to_number dAlpha in
  let Cya := interp AX_CY CY totalAoA in
  let aPolar := interp AX_CY POLAR totalAoA in
  let Cxa := Cx0 + to_number aPolar * to_number Cya * to_number Cya in
  let localThrust := to_number Cya * localQS in
  let localDrag := Cxa * localQS in
  let localTorque := localDrag * range s in
  {| thrust := localThrust; drag := localDrag; torque := localTorque |}.

(** [RX[N - 1]] is [undefined] for an empty [RX] (index -1), as is
    [get RX 0] here. *)
Definition getSingleBladeForces `{Math} (RX AX SX : list float)
  (Cx0 RPM v0 Ro : float) (AX_CY CY POLAR VX dAVX : list float)
  : BladeForces :=
  let N := length RX in
  let R := get RX (N - 1) in
  let dAlpha := if truthy_length VX then interp VX dAVX v0 else Num 0 in
  let speedDistribution := getSpeedDistribution RPM (to_number R) v0 N in
  let (forceDistribution, summary) :=
    force_loop (section_force RX AX SX Cx0 Ro AX_CY CY POLAR dAlpha)
      speedDistribution
      {| totalThrust := 0; totalDrag := 0; totalTorque := 0 |} in
  {| speedDistribution := speedDistribution;
     forceDistribution := forceDistribution;
     summary := summary |}.

Definition getSpeedThrustPerformance `{Math} (initData : InitData)
  : list Point.t :=
  let g := geometry initData in
  let a := aerodynamics initData in
  let e := environment initData in
  let VX := or_default [] (VX g) in
  let dAVX := or_default [] (dAVX g) in
  let omega := 2 * PI * RPM e in
  let rad := to_number (get (RX g) (length (RX g) - 1)) in
  let area := PI * rad * rad in
  let dV := (v1 e - v0 e) / of_nat (nV e) in
  let _nV := (nV e + 1)%nat in
  sweep_loop
    (fun V => summary (getSingleBladeForces (RX g) (AX g) (SX g) (Cx0 a)
                         (RPM e) V (Ro e) (AX_CY a) (CY a) (POLAR a) VX dAVX))
    (nBlade g) omega area (Ro e) dV _nV (v0 e).

End Variant1.

(** ** Second variant (lines 216-427): revolutions per minute, drag table *)

Module Variant2.

Record Aerodynamics : Type := {
  AX_CY : list float;
  CY : list float;
  CX : list float
}.

Record InitData : Type := {
  geometry : Geometry;
  aerodynamics : Aerodynamics;
  environment : Environment
}.

Definition angular_speed (RPM : float) : float := 2 * PI * RPM / 60.

Definition getSpeedDistribution `{Math} (RPM R v0 : float) (N : nat)
  : list SectionSample :=
  let omega := angular_speed RPM in
  let dR := R / of_nat N in
  let localR := dR * 0.5 in
  speed_loop omega v0 dR N localR.

(** Lines 302-312: the forces of one section. *)
Definition section_force (RX AX SX : list float) (Ro : float)
  (AX_CY CY CX : list float) (dAlpha : value) (s : SectionSample)
  : SectionForce :=
  let localQ := 0.5 * Ro * localVelocity s * localVelocity s in
  let bladeSectionArea := interp RX SX (range s) in
  let bladeSectionAoA := interp RX AX (range s) in
  let localQS := to_number bladeSectionArea * localQ in
  let totalAoA := to_number bladeSectionAoA + localAoA s + to_number dAlpha in
  let Cya := interp AX_CY CY totalAoA in
  let Cxa := interp AX_CY CX totalAoA in
  let localThrust := to_number Cya * localQS in
  let localDrag := to_number Cxa * localQS in
  let localTorque := localDrag * range s in
  {| thrust := localThrust; drag := localDrag; torque := localTorque |}.

Definition getSingleBladeForces `{Math} (RX AX SX : list float)
  (RPM v0 Ro : float) (AX_CY CY CX VX dAVX : list float) : BladeForces :=
  let N := length RX in
  let R := get RX (N - 1) in
  let dAlpha := if truthy_length VX then interp VX dAVX v0 else Num 0 in
  let speedDistribution := getSpeedDistribution RPM (to_number R) v0 N in
  let (forceDistribution, summary) :=
    force_loop (section_force RX AX SX Ro AX_CY CY CX dAlpha)
      speedDistribution
      {| totalThrust := 0; totalDrag := 0; totalTorque := 0 |} in
  {| speedDistribution := speedDistribution;
     forceDistribution := forceDistribution;
     summary := summary |}.

Definition getSpeedThrustPerformance `{Math} (initData : InitData)
  : list Point.t :=
  let g := geometry initData in
  let a := aerodynamics initData in
  let e := environment initData in
  let VX := or_default [] (VX g) in
  let dAVX := or_default [] (dAVX g) in
  let omega := 2 * PI * RPM e / 60 in
  let rad := to_number (get (RX g) (length (RX g) - 1)) in
  let area := PI * rad * rad in
  let dV := (v1 e - v0 e) / of_nat (nV e) in
  let _nV := (nV e + 1)%nat in
  sweep_loop
    (fun V => summary (getSingleBladeForces (RX g) (AX g) (SX g)
                         (RPM e) V (Ro e) (AX_CY a) (CY a) (CX a) VX dAVX))
    (nBlade g) omega area (Ro e) dV _nV (v0 e).

End Variant2.

(** ** The configurations shipped with the program *)

Definition testAirScrew1 : Variant1.InitData :=
  {| Variant1.geometry :=
       {| nBlade := 6;
          RX := [0; 0.02; 0.04; 0.06; 0.08; 0.1; 0.12; 0.14; 0.16; 0.18; 0.2];
          SX := [0.0002; 0.0002; 0.0002; 0.0002; 0.0002; 0.0002; 0.0002;
                 0.0002; 0.0002; 0.0002; 0.0002];
          AX := [12.5; 12.5; 11.5; 9.5; 8.5; 8.5; 5.5; 5; 5; 5; 5];
          VX := Some [0; 25; 50; 75; 100; 125; 150; 175; 200; 225; 250; 275];
          dAVX := Some [6; 10; 14; 18; 22; 26; 30; 34; 38; 42; 46; 50] |};
     Variant1.aerodynamics :=
       {| Variant1.AX_CY := [-60; -30; -20; -15; -10; -8; -6; -4; 0; 4; 6; 8;
                             10; 15; 20; 30; 60];
          Variant1.Cx0 := 0.045;
          Variant1.CY := [-0.4; -0.8; -1.05; -0.95; -0.8; -0.64; -0.48; -0.32;
                          0; 0.32; 0.48; 0.64; 0.8; 0.95; 1.05; 0.8; 0.4];
          Variant1.POLAR := [0.75; 0.25; 0.175; 0.135; 0.105; 0.085; 0.07;
                             0.065; 0.065; 0.065; 0.07; 0.085; 0.105; 0.135;
                             0.175; 0.25; 0.75] |};
     Variant1.environment :=
       {| RPM := 95; v0 := 0; v1 := 45; nV := 15; Ro := 1.225 |} |}.

Definition testAirScrew2 : Variant2.InitData :=
  {| Variant2.geometry :=
       {| nBlade := 4;
          RX := [0; 0.1; 0.2; 0.3; 0.4; 0.5; 0.6; 0.7; 0.8; 0.9; 1.0];
          SX := [0.01; 0.01; 0.01; 0.01; 0.01; 0.01; 0.01; 0.01; 0.01; 0.01;
                 0.01];
          AX := [17.5; 15.5; 13.5; 11.5; 9.5; 7.5; 5.5; 3.5; 1.5; -0.5; -0.5];
          VX := Some [0; 40; 60; 80; 100; 120; 140];
          dAVX := Some [0; 0; 0; 0; 0; 0; 0] |};
     Variant2.aerodynamics :=
       {| Variant2.AX_CY := [-32; -28; -24; -20; -16; -8; 0; 8; 16; 20; 24;
                             28; 32];
          Variant2.CY := [-0.38239; -0.30265; -0.22263; -0.13628; -0.07003;
                          0.29496; 1.28453; 2.0334; 2.53601; 2.54411; 2.3579;
                          2.04756; 1.89981];
          Variant2.CX := [0.40843; 0.34353; 0.27836; 0.22452; 0.18081;
                          0.09877; 0.07718; 0.141; 0.24166; 0.30899; 0.38833;
                          0.49155; 0.57683] |};
     Variant2.environment :=
       {| RPM := 2500; v0 := 0; v1 := 60; nV := 15; Ro := 1.225 |} |}.

(** ** Vocabulary of the specification *)

(** [x[i]] read as a number. *)
Definition nth_num (x : list float) (i : nat) : float := to_number (get x i).

(** The x-values of a breakpoint table increase strictly. *)
Definition strictly_increasing (x : list float) : Prop :=
  forall i, (S i < length x)%nat -> (nth_num x i <? nth_num x (S i)) = true.

Definition last_breakpoint (x : list float) : float :=
  nth_num x (length x - 1).

(** The linear formula on the segment between the breakpoints [i] and
    [i + 1]. *)
Definition segment (VX VY : list float) (X : float) (i : nat) : float :=
  nth_num VY i
  + (nth_num VY (S i) - nth_num VY i) / (nth_num VX (S i) - nth_num VX i)
    * (X - nth_num VX i).

(** [i] is the first index with [x[i+1] > X]. *)
Definition first_above (VX : list float) (X : float) (i : nat) : Prop :=
  (S i < length VX)%nat
  /\ (X <? nth_num VX (S i)) = true
  /\ forall j, (j < i)%nat -> (X <? nth_num VX (S j)) = false.

(** [X] exceeds all the breakpoints. *)
Definition exceeds_all (VX : list float) (X : float) : Prop :=
  forall x, In x VX -> (x <? X) = true.

(** A number other than zero and NaN. *)
Definition nonzero_number (x : float) : Prop :=
  (0 <? x) = true \/ (x <? 0) = true.

(** [dAlpha] of [getSingleBladeForces] (lines 76 and 291). *)
Definition pitch_correction (VX dAVX : list float) (v0 : float) : value :=
  if truthy_length VX then interp VX dAVX v0 else Num 0.

(** [totalAoA] of a section (lines 92 and 307). *)
Definition total_AoA (RX AX : list float) (dAlpha : value)
  (s : SectionSample) : float :=
  to_number (interp RX AX (range s)) + localAoA s + to_number dAlpha.

(** One of the interpolations made for the section [s] finds no segment:
    the pitch correction, the section area, the twist, or a coefficient
    looked up at the total angle of attack. *)
Definition lookup_fails (RX AX SX AX_CY : list float) (dAlpha : value)
  (s : SectionSample) : Prop :=
  dAlpha = Undefined
  \/ interp RX SX (range s) = Undefined
  \/ interp RX AX (range s) = Undefined
  \/ exists Y, interp AX_CY Y (total_AoA RX AX dAlpha s) = Undefined.

Definition nan_force : SectionForce :=
  {| thrust := nan; drag := nan; torque := nan |}.

(** [bladeSectionArea] and [Cya] of a section, as numbers. *)
Definition section_area (RX SX : list float) (s : SectionSample) : float :=
  to_number (interp RX SX (range s)).

Definition lift_coefficient (RX AX AX_CY CY : list float) (dAlpha : value)
  (s : SectionSample) : float :=
  to_number (interp AX_CY CY (total_AoA RX AX dAlpha s)).

(** [Cxa] of a section in the first variant (polar) and in the second
    (drag table). *)
Definition drag_coefficient1 (RX AX : list float) (Cx0 : float)
  (AX_CY CY POLAR : list float) (dAlpha : value) (s : SectionSample) : float :=
  Cx0
  + to_number (interp AX_CY POLAR (total_AoA RX AX dAlpha s))
    * lift_coefficient RX AX AX_CY CY dAlpha s
    * lift_coefficient RX AX AX_CY CY dAlpha s.

Definition drag_coefficient2 (RX AX AX_CY CX : list float) (dAlpha : value)
  (s : SectionSample) : float :=
  to_number (interp AX_CY CX (total_AoA RX AX dAlpha s)).

(** The forward speeds, in m/s, the sweep steps through: [n] of them from
    [V], each the previous one plus [dV]. *)
Fixpoint speeds (dV : float) (n : nat) (V : float) : list float :=
  match n with
  | O => []
  | S n' => V :: speeds dV n' (V + dV)
  end.

Definition step (e : Environment) : float := (v1 e - v0 e) / of_nat (nV e).

Definition disc_area (g : Geometry) : float :=
  PI * nth_num (RX g) (length (RX g) - 1) * nth_num (RX g) (length (RX g) - 1).

(** The point the sweep builds at forward speed [V] (lines 140-157 and
    354-371). *)
Definition sweep_point (blade : float -> Summary)
  (nBlade omega area Ro V : float) : Point.t :=
  let s := blade V in
  let Q := 0.5 * Ro * V * V in
  let thrust := totalThrust s * nBlade in
  let torque := totalTorque s * nBlade in
  let power := torque * omega in
  {| Point.V := V * 3.6;
     Point.thrust := thrust;
     Point.torque := torque;
     Point.power := power;
     Point.thrustCoeff := thrust / (area * Q);
     Point.thrust2power := thrust / power |}.

(** The single-blade summary, the disc area and the step of the sweep of
    the first variant. *)
Definition blade1 `{Math} (d : Variant1.InitData) (V : float) : Summary :=
  let g := Variant1.geometry d in
  let a := Variant1.aerodynamics d in
  let e := Variant1.environment d in
  summary (Variant1.getSingleBladeForces (RX g) (AX g) (SX g)
             (Variant1.Cx0 a) (RPM e) V (Ro e) (Variant1.AX_CY a)
             (Variant1.CY a) (Variant1.POLAR a)
             (or_default [] (VX g)) (or_default [] (dAVX g))).

(** The single-blade summary of the sweep of the second variant. *)
Definition blade2 `{Math} (d : Variant2.InitData) (V : float) : Summary :=
  let g := Variant2.geometry d in
  let a := Variant2.aerodynamics d in
  let e := Variant2.environment d in
  summary (Variant2.getSingleBladeForces (RX g) (AX g) (SX g)
             (RPM e) V (Ro e) (Variant2.AX_CY a)
             (Variant2.CY a) (Variant2.CX a)
             (or_default [] (VX g)) (or_default [] (dAVX g))).

(** The configurations the specification calls degenerate: zero blade
    count, zero or negative tip radius, a breakpoint table that is not
    increasing, or [nV = 0] with [v0 = v1]. *)
Definition degenerate (g : Geometry) (tables : list (list float))
  (e : Environment) : Prop :=
  (nBlade g =? 0) = true
  \/ (nth_num (RX g) (length (RX g) - 1) <=? 0) = true
  \/ (exists t, In t tables /\ ~ strictly_increasing t)
  \/ (nV e = 0%nat /\ v0 e = v1 e).

Definition degenerate1 (d : Variant1.InitData) : Prop :=
  degenerate (Variant1.geometry d)
    [RX (Variant1.geometry d); Variant1.AX_CY (Variant1.aerodynamics d);
     or_default [] (VX (Variant1.geometry d))]
    (Variant1.environment d).

(** Zero, infinite, NaN, or of magnitude between 2^-400 and 2^400: numbers
    whose doubles do not overflow and whose products and quotients do not
    underflow, so that doubling commutes with multiplication and
    division. *)
Definition tame (x : float) : bool :=
  is_zero x || is_nan x || is_infinity x
  || ((0x1p-400 <=? abs x) && (abs x <=? 0x1p+400)).

(** The density, the factors of a section's forces and the products they
    go through are all tame. *)
Definition density_tame (Ro area Cya Cxa v : float) : bool :=
  forallb tame
    [Ro; 0.5 * Ro; 0.5 * Ro * v; 0.5 * Ro * v * v;
     area * (0.5 * Ro * v * v); v; area; Cya; Cxa].

(** The blade count, the single-blade totals and the products and the
    divisor they go through are all tame. *)
Definition blades_tame (T Tq n omega aQ : float) : bool :=
  forallb tame [n; T; Tq; T * n; Tq * n; omega; Tq * n * omega; aQ].

(** The same on the specification side: a finite number is normal, with its
    exponent well inside the range. *)
Definition sf_tame (z : spec_float) : Prop :=
  match z with
  | S754_finite _ m e => Zpos (digits2_pos m) = 53%Z /\ (-453 < e < 349)%Z
  | _ => True
  end.

(** The specification-side double of a tame number. *)
Definition sf_double (z : spec_float) : spec_float :=
  match z with
  | S754_finite s m e => S754_finite s m (e + 1)
  | _ => z
  end.

(** What [binary_round_aux] builds from the shifted mantissa and the
    exponent. *)
Definition rounded (s : bool) (mrs : shr_record) (e : Z) : spec_float :=
  match shr_m mrs with
  | Z0 => S754_zero s
  | Zpos m => if (e <=? 971)%Z then S754_finite s m e else S754_infinity s
  | Zneg _ => S754_nan
  end.

(** The slope [k] of the segment between the breakpoints [i] and [i + 1]
    (lines 25 and 240). *)
Definition slope (VX VY : list float) (i : nat) : float :=
  (nth_num VY (S i) - nth_num VY i) / (nth_num VX (S i) - nth_num VX i).

(** Zero of either sign, or NaN. *)
Definition zero_or_nan (x : float) : bool := is_zero x || is_nan x.

(** The three forces of a section are zero or NaN. *)
Definition idle_force (f : SectionForce) : Prop :=
  zero_or_nan (thrust f) = true /\ zero_or_nan (drag f) = true
  /\ zero_or_nan (torque f) = true.

(** Every field of a point that is computed from the forces is NaN. *)
Definition nan_point (p : Point.t) : Prop :=
  Point.thrust p = nan /\ Point.torque p = nan /\ Point.power p = nan
  /\ Point.thrustCoeff p = nan /\ Point.thrust2power p = nan.

(** ** Configurations used as examples *)

(** The first variant's shipped configuration with another speed range. *)
Definition sweep_config (v0 v1 : float) (nV : nat) : Variant1.InitData :=
  {| Variant1.geometry := Variant1.geometry testAirScrew1;
     Variant1.aerodynamics := Variant1.aerodynamics testAirScrew1;
     Variant1.environment :=
       {| RPM := 95; v0 := v0; v1 := v1; nV := nV; Ro := 1.225 |} |}.

(** The first variant's shipped tables with no blade and an empty speed
    range. *)
Definition no_blade_config : Variant1.InitData :=
  {| Variant1.geometry :=
       {| nBlade := 0;
          RX := RX (Variant1.geometry testAirScrew1);
          SX := SX (Variant1.geometry testAirScrew1);
          AX := AX (Variant1.geometry testAirScrew1);
          VX := VX (Variant1.geometry testAirScrew1);
          dAVX := dAVX (Variant1.geometry testAirScrew1) |};
     Variant1.aerodynamics := Variant1.aerodynamics testAirScrew1;
     Variant1.environment :=
       {| RPM := 95; v0 := 0; v1 := 0; nV := 0; Ro := 1.225 |} |}.

(** The blade of the first variant's shipped configuration at density [Ro]
    and forward speed 0. *)
Definition shipped_blade (Ro : float) : BladeForces :=
  let g := Variant1.geometry testAirScrew1 in
  let a := Variant1.aerodynamics testAirScrew1 in
  Variant1.getSingleBladeForces (RX g) (AX g) (SX g) (Variant1.Cx0 a) 95 0 Ro
    (Variant1.AX_CY a) (Variant1.CY a) (Variant1.POLAR a)
    (or_default [] (VX g)) (or_default [] (dAVX g)).

(** A configuration of the first variant with another blade count. *)
Definition with_nBlade (d : Variant1.InitData) (n : float)
  : Variant1.InitData :=
  {| Variant1.geometry :=
       {| nBlade := n;
          RX := RX (Variant1.geometry d);
          SX := SX (Variant1.geometry d);
          AX := AX (Variant1.geometry d);
          VX := VX (Variant1.geometry d);
          dAVX := dAVX (Variant1.geometry d) |};
     Variant1.aerodynamics := Variant1.aerodynamics d;
     Variant1.environment := Variant1.environment d |}.

(** The point of index [i] of the first variant's shipped configuration
    (6 blades) with [k] times the blades. *)
Definition scaled_point (k : float) (i : nat) : Point.t :=
  nth i
    (Variant1.getSpeedThrustPerformance (with_nBlade testAirScrew1 (6 * k)))
    {| Point.V := nan; Point.thrust := nan; Point.torque := nan;
       Point.power := nan; Point.thrustCoeff := nan;
       Point.thrust2power := nan |}.

(** The second variant's shipped configuration with no blade. *)
Definition no_blade_config2 : Variant2.InitData :=
  {| Variant2.geometry :=
       {| nBlade := 0;
          RX := RX (Variant2.geometry testAirScrew2);
          SX := SX (Variant2.geometry testAirScrew2);
          AX := AX (Variant2.geometry testAirScrew2);
          VX := VX (Variant2.geometry testAirScrew2);
          dAVX := dAVX (Variant2.geometry testAirScrew2) |};
     Variant2.aerodynamics := Variant2.aerodynamics testAirScrew2;
     Variant2.environment := Variant2.environment testAirScrew2 |}.

(** The shipped configurations in a medium of density zero. *)
Definition vacuum_config1 : Variant1.InitData :=
  {| Variant1.geometry := Variant1.geometry testAirScrew1;
     Variant1.aerodynamics := Variant1.aerodynamics testAirScrew1;
     Variant1.environment :=
       {| RPM := 95; v0 := 0; v1 := 45; nV := 15; Ro := 0 |} |}.

Definition vacuum_config2 : Variant2.InitData :=
  {| Variant2.geometry := Variant2.geometry testAirScrew2;
     Variant2.aerodynamics := Variant2.aerodynamics testAirScrew2;
     Variant2.environment :=
       {| RPM := 2500; v0 := 0; v1 := 60; nV := 15; Ro := 0 |} |}.

(** ** Facts of binary64 arithmetic *)

Section FloatFacts.

Lemma SFltb_trans (x y z : spec_float) :
  SFltb x y = true -> SFltb y z = true -> SFltb x z = true.
Proof.
  unfold SFltb.
  destruct x as [sx|sx| |sx mx ex], y as [sy|sy| |sy my ey],
    z as [sz|sz| |sz mz ez]; simpl;
    try destruct sx; try destruct sy; try destruct sz; simpl;
    try congruence;
    fold (Pos.compare mx my) (Pos.compare my mz) (Pos.compare mx mz);
    destruct (Z.compare_spec ex ey), (Z.compare_spec ey ez),
      (Z.compare_spec ex ez); subst; try congruence; try lia;
    destruct (Pos.compare_spec mx my), (Pos.compare_spec my mz),
      (Pos.compare_spec mx mz); subst; cbn [CompOpp]; try congruence; lia.
Qed.

(** [<] on numbers is transitive. *)
Lemma ltb_trans (x y z : float) :
  (x <? y) = true -> (y <? z) = true -> (x <? z) = true.
Proof. rewrite !ltb_spec. apply SFltb_trans. Qed.

Lemma Prim2SF_nan : Prim2SF nan = S754_nan.
Proof. reflexivity. Qed.

Lemma Prim2SF_zero : Prim2SF 0 = S754_zero false.
Proof. reflexivity. Qed.

(** No number is below or above NaN. *)
Lemma ltb_nan_r (x : float) : (x <? nan) = false.
Proof.
  rewrite ltb_spec, Prim2SF_nan. unfold SFltb.
  now destruct (Prim2SF x) as [[|]|[|]| |[|] m e].
Qed.

Lemma ltb_nan_l (x : float) : (nan <? x) = false.
Proof. now rewrite ltb_spec, Prim2SF_nan. Qed.

(** NaN is absorbing for the arithmetic operations. *)
Lemma add_nan_l (x : float) : nan + x = nan.
Proof. apply Prim2SF_inj. now rewrite add_spec, Prim2SF_nan. Qed.

Lemma add_nan_r (x : float) : x + nan = nan.
Proof.
  apply Prim2SF_inj. rewrite add_spec, Prim2SF_nan.
  now destruct (Prim2SF x) as [[|]|[|]| |[|] m e].
Qed.

Lemma mul_nan_l (x : float) : nan * x = nan.
Proof. apply Prim2SF_inj. now rewrite mul_spec, Prim2SF_nan. Qed.

Lemma mul_nan_r (x : float) : x * nan = nan.
Proof.
  apply Prim2SF_inj. rewrite mul_spec, Prim2SF_nan.
  now destruct (Prim2SF x) as [[|]|[|]| |[|] m e].
Qed.

(** Zero divided by a positive number is [+0], by a negative one [-0]. *)
Lemma div_zero_pos (x : float) : (0 <? x) = true -> 0 / x = 0.
Proof.
  intros Hpos. apply Prim2SF_inj.
  rewrite ltb_spec, Prim2SF_zero in Hpos. rewrite div_spec, Prim2SF_zero.
  destruct (Prim2SF x) as [[|]|[|]| |[|] m e]; try discriminate; reflexivity.
Qed.

Lemma div_zero_neg (x : float) : (x <? 0) = true -> 0 / x = -0.
Proof.
  intros Hneg. apply Prim2SF_inj.
  rewrite ltb_spec, Prim2SF_zero in Hneg. rewrite div_spec, Prim2SF_zero.
  destruct (Prim2SF x) as [[|]|[|]| |[|] m e]; try discriminate; reflexivity.
Qed.

Lemma SFmul_comm (x y : spec_float) : SF64mul x y = SF64mul y x.
Proof.
  unfold SF64mul, SFmul.
  destruct x as [sx|sx| |sx mx ex], y as [sy|sy| |sy my ey];
    try rewrite (xorb_comm sx sy); trivial.
  now rewrite (Pos.mul_comm mx my), (Z.add_comm ex ey).
Qed.

Lemma mul_comm (x y : float) : x * y = y * x.
Proof. apply Prim2SF_inj. rewrite !mul_spec. apply SFmul_comm. Qed.

End FloatFacts.

(** ** Doubling in binary64 *)

Section Doubling.

Local Open Scope Z_scope.

Lemma shr_fexp_succ (m e : Z) (l : location) :
  -1074 < e ->
  exists mrs e1,
    shr_fexp prec emax m e l = (mrs, e1)
    /\ shr_fexp prec emax m (e + 1) l = (mrs, e1 + 1)
    /\ e <= e1.
Proof.
  intros He. unfold shr_fexp, shr, fexp, SpecFloat.emin, prec, emax.
  set (g := Zdigits2 m). set (r := shr_record_of_loc m l).
  change (3 - 1024 - 53) with (-1074).
  destruct (Z_le_gt_dec g 53) as [Hg|Hg].
  - exists r, e.
    destruct (Z.max (g + e - 53) (-1074) - e) eqn:E1; try lia;
    destruct (Z.max (g + (e + 1) - 53) (-1074) - (e + 1)) eqn:E2; try lia.
    all: repeat split; lia.
  - replace (Z.max (g + e - 53) (-1074) - e) with (g - 53) by lia.
    replace (Z.max (g + (e + 1) - 53) (-1074) - (e + 1)) with (g - 53) by lia.
    destruct (g - 53) as [|p|p] eqn:E; try lia.
    exists (iter_pos shr_1 p r), (e + Z.pos p).
    repeat split; try lia. f_equal. lia.
Qed.

Lemma binary_round_aux_succ (s : bool) (m e : Z) (l : location) :
  -1074 < e ->
  exists mrs e2,
    -1074 < e2
    /\ binary_round_aux prec emax s m e l = rounded s mrs e2
    /\ binary_round_aux prec emax s m (e + 1) l = rounded s mrs (e2 + 1).
Proof.
  intros He. unfold binary_round_aux.
  destruct (shr_fexp_succ m l He) as (mrs1 & e1 & -> & -> & He1).
  destruct (@shr_fexp_succ
              (round_nearest_even (shr_m mrs1) (loc_of_shr_record mrs1))
              e1 loc_Exact ltac:(lia)) as (mrs2 & e2 & -> & -> & He2).
  exists mrs2, e2. repeat split; lia.
Qed.

Lemma Prim2SF_two : Prim2SF 2 = S754_finite false 4503599627370496 (-51).
Proof. reflexivity. Qed.

(** Doubling a normal number adds one to its exponent, or overflows. *)
Lemma SFmul_two_finite (s : bool) (m : positive) (e : Z) :
  Z.pos (digits2_pos m) = 53 -> -1074 < e ->
  SF64mul (Prim2SF 2) (S754_finite s m e)
  = if e + 1 <=? 971 then S754_finite s m (e + 1) else S754_infinity s.
Proof.
  intros Hd He. rewrite Prim2SF_two.
  unfold SF64mul, SFmul, binary_round_aux, shr_fexp, fexp, SpecFloat.emin,
    prec, emax.
  change (3 - 1024 - 53) with (-1074). change (1024 - 53) with 971.
  injection Hd as Hd.
  cbn [xorb Pos.mul Zdigits2 digits2_pos shr_record_of_loc].
  rewrite Hd. cbn [Pos.succ].
  replace (Z.max (105 + (-51 + e) - 53) (-1074) - (-51 + e)) with 52 by lia.
  cbn [shr iter_pos shr_1 shr_m shr_r shr_s orb loc_of_shr_record
       round_nearest_even Zdigits2].
  rewrite Hd.
  replace (Z.max (53 + (-51 + e + 52) - 53) (-1074) - (-51 + e + 52))
    with 0 by lia.
  cbn [shr shr_m].
  now replace (-51 + e + 52) with (e + 1) by lia.
Qed.

Lemma SFmul_two_tame (z : spec_float) :
  sf_tame z -> SF64mul (Prim2SF 2) z = sf_double z.
Proof.
  destruct z as [[|]|[|]| |s m e]; try reflexivity.
  intros [Hd He]. rewrite SFmul_two_finite by (trivial; lia).
  simpl. destruct (Z.leb_spec (e + 1) 971); [reflexivity | lia].
Qed.

(** A valid number above the smallest exponent is normal. *)
Lemma valid_normal (s : bool) (m : positive) (e : Z) :
  valid_binary (S754_finite s m e) = true -> -1074 < e ->
  Z.pos (digits2_pos m) = 53.
Proof.
  unfold SpecFloat.valid_binary, bounded, canonical_mantissa, fexp,
    SpecFloat.emin, prec, emax.
  change (3 - 1024 - 53) with (-1074).
  intros Hv He. apply andb_prop in Hv as [Hc _].
  apply Z.eqb_eq in Hc. lia.
Qed.

(** Doubling what [binary_round_aux] returns, above the smallest
    exponent. *)
Lemma SFmul_two_rounded (s : bool) (mrs : shr_record) (e : Z) :
  valid_binary (rounded s mrs e) = true -> -1074 < e ->
  SF64mul (Prim2SF 2) (rounded s mrs e) = rounded s mrs (e + 1).
Proof.
  unfold rounded. intros Hv He.
  destruct (shr_m mrs) as [|m|m]; try reflexivity.
  destruct (Z.leb_spec e 971) as [Hle|Hgt].
  - apply SFmul_two_finite; trivial. now apply valid_normal with s e.
  - destruct (Z.leb_spec (e + 1) 971); [lia | reflexivity].
Qed.

Lemma SFmul_double (x y : spec_float) :
  sf_tame x -> sf_tame y -> valid_binary (SF64mul y x) = true ->
  SF64mul y (sf_double x) = SF64mul (Prim2SF 2) (SF64mul y x).
Proof.
  destruct x as [sx|sx| |sx mx ex], y as [sy|sy| |sy my ey];
    try (intros; destruct sx, sy; reflexivity);
    try (intros; destruct sy; reflexivity);
    try (intros; destruct sx; reflexivity);
    try reflexivity.
  intros [Hdx Hex] [Hdy Hey]. unfold sf_double, SF64mul, SFmul.
  fold SF64mul.
  replace (ey + (ex + 1)) with (ey + ex + 1) by lia.
  destruct (@binary_round_aux_succ (xorb sy sx) (Z.pos (my * mx)) (ey + ex)
              loc_Exact ltac:(lia)) as (mrs & e2 & He2 & -> & ->).
  intros Hv. symmetry. now apply SFmul_two_rounded.
Qed.

Lemma SFdiv_core_tame (mx my : positive) (ex ey : Z) :
  Z.pos (digits2_pos mx) = 53 -> Z.pos (digits2_pos my) = 53 ->
  -453 < ex < 350 -> -453 < ey < 350 ->
  SFdiv_core_binary prec emax (Z.pos mx) ex (Z.pos my) ey
  = let '(q, r) := Z.div_eucl (Z.shiftl (Z.pos mx) 53) (Z.pos my) in
    (q, ex - ey - 53, new_location (Z.pos my) r).
Proof.
  intros Hdx Hdy Hex Hey.
  unfold SFdiv_core_binary, fexp, SpecFloat.emin, prec, emax.
  change (3 - 1024 - 53) with (-1074).
  cbn [Zdigits2]. rewrite Hdx, Hdy.
  replace (Z.min (Z.max (53 + ex - (53 + ey) - 53) (-1074)) (ex - ey))
    with (ex - ey - 53) by lia.
  now replace (ex - ey - (ex - ey - 53)) with 53 by lia.
Qed.

Lemma SFdiv_double (x y : spec_float) :
  sf_tame x -> sf_tame y -> valid_binary (SF64div x y) = true ->
  SF64div (sf_double x) y = SF64mul (Prim2SF 2) (SF64div x y).
Proof.
  destruct x as [sx|sx| |sx mx ex], y as [sy|sy| |sy my ey];
    try (intros; destruct sx, sy; reflexivity);
    try (intros; destruct sy; reflexivity);
    try (intros; destruct sx; reflexivity);
    try reflexivity.
  intros [Hdx Hex] [Hdy Hey]. unfold sf_double, SF64div, SFdiv.
  rewrite !SFdiv_core_tame by (trivial; lia).
  destruct (Z.div_eucl (Z.shiftl (Z.pos mx) 53) (Z.pos my)) as [q r].
  replace (ex + 1 - ey - 53) with (ex - ey - 53 + 1) by lia.
  destruct (@binary_round_aux_succ (xorb sx sy) q (ex - ey - 53)
              (new_location (Z.pos my) r) ltac:(lia))
    as (mrs & e2 & He2 & -> & ->).
  intros Hv. symmetry. now apply SFmul_two_rounded.
Qed.

Lemma SFdiv_double_both (x y : spec_float) :
  sf_tame x -> sf_tame y ->
  SF64div (sf_double x) (sf_double y) = SF64div x y.
Proof.
  destruct x as [sx|sx| |sx mx ex], y as [sy|sy| |sy my ey];
    try reflexivity.
  intros [Hdx Hex] [Hdy Hey]. unfold sf_double, SF64div, SFdiv.
  rewrite !SFdiv_core_tame by (trivial; lia).
  now replace (ex + 1 - (ey + 1) - 53) with (ex - ey - 53) by lia.
Qed.

End Doubling.

Section DoublingFloat.

Lemma Prim2SF_constants :
  Prim2SF zero = S754_zero false
  /\ Prim2SF infinity = S754_infinity false
  /\ Prim2SF 0x1p-400 = S754_finite false 4503599627370496 (-452)
  /\ Prim2SF 0x1p+400 = S754_finite false 4503599627370496 348.
Proof. repeat split; vm_compute; reflexivity. Qed.

Lemma tame_spec (x : float) : tame x = true -> sf_tame (Prim2SF x).
Proof.
  unfold tame, is_zero, is_nan, is_infinity.
  destruct Prim2SF_constants as (Hzero & Hinf & Hlow & Hhigh).
  rewrite !leb_spec, !eqb_spec, abs_spec, Hzero, Hinf, Hlow, Hhigh.
  pose proof (Prim2SF_valid x) as Hv.
  destruct (Prim2SF x) as [sx|sx| |s m e]; cbn [sf_tame]; trivial.
  unfold SFeqb, SFleb. cbn [SFabs SFcompare].
  rewrite Z.compare_refl.
  fold (Pos.compare m m). rewrite Pos.compare_refl.
  assert (-1074 < e -> Z.pos (digits2_pos m) = 53)%Z as Hd
    by now apply valid_normal with s.
  replace (match (if s then Lt else Gt) with Eq => true | _ => false end)
    with false by now destruct s.
  destruct s; cbn [CompOpp negb orb];
    destruct (Z.compare_spec (-452) e), (Z.compare_spec e 348);
    try discriminate; try (rewrite andb_false_r; discriminate);
    intros _; split; try apply Hd; lia.
Qed.

(** Doubling commutes with multiplication and division of tame numbers. *)
Lemma double_mul_r (x y : float) :
  tame x = true -> tame y = true -> y * (2 * x) = 2 * (y * x).
Proof.
  intros Hx Hy. apply tame_spec in Hx, Hy. apply Prim2SF_inj.
  rewrite !mul_spec, (SFmul_two_tame _ Hx).
  apply SFmul_double; trivial. rewrite <- mul_spec. apply Prim2SF_valid.
Qed.

Lemma double_mul_l (x y : float) :
  tame x = true -> tame y = true -> 2 * x * y = 2 * (x * y).
Proof.
  intros Hx Hy. rewrite (mul_comm (2 * x) y), (mul_comm x y).
  now apply double_mul_r.
Qed.

Lemma double_div (x y : float) :
  tame x = true -> tame y = true -> 2 * x / y = 2 * (x / y).
Proof.
  intros Hx Hy. apply tame_spec in Hx, Hy. apply Prim2SF_inj.
  rewrite mul_spec, !div_spec, mul_spec, (SFmul_two_tame _ Hx).
  apply SFdiv_double; trivial. rewrite <- div_spec. apply Prim2SF_valid.
Qed.

Lemma double_div_both (x y : float) :
  tame x = true -> tame y = true -> 2 * x / (2 * y) = x / y.
Proof.
  intros Hx Hy. apply tame_spec in Hx, Hy. apply Prim2SF_inj.
  rewrite !div_spec, !mul_spec, (SFmul_two_tame _ Hx), (SFmul_two_tame _ Hy).
  now apply SFdiv_double_both.
Qed.

End DoublingFloat.

(** ** [interp] *)

Section Interp.

Variables (VX VY : list float) (X : float).

Lemma nth_num_out (x : list float) (i : nat) :
  (length x <= i)%nat -> nth_num x i = nan.
Proof.
  intros Hi. unfold nth_num, get.
  apply nth_error_None in Hi. now rewrite Hi.
Qed.

(** A breakpoint above [X] lies inside the table. *)
Lemma above_in_range (i : nat) :
  (X <? nth_num VX i) = true -> (i < length VX)%nat.
Proof.
  intros Hlt. destruct (Nat.lt_ge_cases i (length VX)) as [Hi|Hi]; trivial.
  rewrite (nth_num_out VX Hi), ltb_nan_r in Hlt. discriminate.
Qed.

(** The loop returns the segment formula at the first index it finds, and
    [undefined] when it finds none. *)
Lemma interp_loop_cases (n i : nat) :
  (exists k, (k < n)%nat
     /\ (X <? nth_num VX (S (i + k))) = true
     /\ (forall j, (j < k)%nat -> (X <? nth_num VX (S (i + j))) = false)
     /\ interp_loop VX VY X n i (S i) = Num (segment VX VY X (i + k)))
  \/ ((forall j, (j < n)%nat -> (X <? nth_num VX (S (i + j))) = false)
      /\ interp_loop VX VY X n i (S i) = Undefined).
Proof.
  revert i. induction n as [|n IH]; intros i.
  - right. split; [intros j Hj; lia | reflexivity].
  - simpl. unfold gt. fold (nth_num VX (S i)).
    destruct (X <? nth_num VX (S i)) eqn:Hfirst.
    + left. exists 0%nat. rewrite Nat.add_0_r.
      repeat split; trivial; [lia | intros j Hj; lia].
    + destruct (IH (S i)) as [(k & Hk & Hlt & Hbefore & Hres)|[Hnone Hres]].
      * left. exists (S k). rewrite Nat.add_succ_r.
        repeat split; trivial; [lia|].
        intros [|j] Hj; [now rewrite Nat.add_0_r|].
        rewrite Nat.add_succ_r. apply Hbefore. lia.
      * right. split; trivial.
        intros [|j] Hj; [now rewrite Nat.add_0_r|].
        rewrite Nat.add_succ_r. apply Hnone. lia.
Qed.

Lemma interp_cases :
  (exists i, first_above VX X i /\ interp VX VY X = Num (segment VX VY X i))
  \/ ((forall j, (j < length VX)%nat -> (X <? nth_num VX (S j)) = false)
      /\ interp VX VY X = Undefined).
Proof.
  unfold interp.
  destruct (interp_loop_cases (length VX) 0)
    as [(k & Hk & Hlt & Hbefore & Hres)|[Hnone Hres]]; simpl in *.
  - left. exists k. split; trivial.
    split; [now apply above_in_range|]. split; trivial.
  - right. split; trivial.
Qed.

(** In an increasing table every breakpoint is below the later ones. *)
Lemma increasing_below (i j : nat) :
  strictly_increasing VX -> (i < j)%nat -> (j < length VX)%nat ->
  (nth_num VX i <? nth_num VX j) = true.
Proof.
  intros Hinc Hij. induction Hij as [|j Hij IH]; intros Hj.
  - now apply Hinc.
  - apply ltb_trans with (nth_num VX j); [apply IH; lia | now apply Hinc].
Qed.

Lemma below_some_below_last (i : nat) :
  strictly_increasing VX -> (X <? nth_num VX i) = true ->
  (X <? last_breakpoint VX) = true.
Proof.
  intros Hinc Hlt. pose proof (above_in_range _ Hlt) as Hi.
  unfold last_breakpoint.
  destruct (Nat.eq_dec i (length VX - 1)) as [->|Hne]; trivial.
  apply ltb_trans with (nth_num VX i); trivial.
  apply increasing_below; trivial; lia.
Qed.

Lemma none_above_not_below_last :
  (2 <= length VX)%nat ->
  (forall j, (j < length VX)%nat -> (X <? nth_num VX (S j)) = false) ->
  (X <? last_breakpoint VX) = false.
Proof.
  intros Hlen Hnone. unfold last_breakpoint.
  replace (length VX - 1)%nat with (S (length VX - 2)) by lia.
  apply Hnone. lia.
Qed.

End Interp.

(** Whether [interp] finds a segment depends on the x-values alone. *)
Lemma interp_undefined_any_y (VX VY VY' : list float) (X : float) :
  interp VX VY X = Undefined -> interp VX VY' X = Undefined.
Proof.
  intros Hundef.
  destruct (interp_cases VX VY X) as [(i & _ & Hres)|[Hnone _]];
    [congruence|].
  destruct (interp_cases VX VY' X) as [(i & (Hi & Hlt & _) & _)|[_ Hres]];
    trivial.
  rewrite Hnone in Hlt by lia. discriminate.
Qed.

(** A NaN query finds no segment. *)
Lemma interp_nan (VX VY : list float) : interp VX VY nan = Undefined.
Proof.
  destruct (interp_cases VX VY nan) as [(i & (_ & Hlt & _) & _)|[_ Hres]];
    trivial.
  rewrite ltb_nan_l in Hlt. discriminate.
Qed.

(** C3. For a breakpoint table whose x-values increase strictly, of length
    at least 2, and a query [X] strictly below the last breakpoint, [interp]
    returns [y[i] + (y[i+1]-y[i])/(x[i+1]-x[i]) * (X - x[i])] where [i] is
    the first index with [x[i+1] > X]; a query below [x[1]] uses the indices
    0 and 1; on the table x=[0,1], y=[0,10] it returns 5 at 0.5 and 0 at 0. *)
Theorem interp_below_last_breakpoint (VX VY : list float) (X : float) :
  length VY = length VX ->
  (2 <= length VX)%nat ->
  strictly_increasing VX ->
  (X <? last_breakpoint VX) = true ->
  (exists i, first_above VX X i /\ interp VX VY X = Num (segment VX VY X i))
  /\ ((X <? nth_num VX 1) = true -> interp VX VY X = Num (segment VX VY X 0))
  /\ interp [0; 1] [0; 10] 0.5 = Num 5
  /\ interp [0; 1] [0; 10] 0 = Num 0.
Proof.
  intros _ Hlen _ Hlast. repeat split; try reflexivity.
  - destruct (interp_cases VX VY X) as [Hfound|[Hnone _]]; trivial.
    rewrite (@none_above_not_below_last VX X Hlen Hnone) in Hlast.
    discriminate.
  - intros Hlow. unfold interp.
    destruct (length VX) as [|n]; [lia|]. simpl. unfold gt.
    fold (nth_num VX 1). now rewrite Hlow.
Qed.

Lemma interp_below_last_breakpoint_witness :
  (exists i, first_above [0; 1; 2] 1.5 i
     /\ interp [0; 1; 2] [0; 10; 40] 1.5 = Num (segment [0; 1; 2] [0; 10; 40] 1.5 i))
  /\ ((1.5 <? nth_num [0; 1; 2] 1) = true ->
      interp [0; 1; 2] [0; 10; 40] 1.5 = Num (segment [0; 1; 2] [0; 10; 40] 1.5 0))
  /\ interp [0; 1] [0; 10] 0.5 = Num 5
  /\ interp [0; 1] [0; 10] 0 = Num 0.
Proof.
  apply (@interp_below_last_breakpoint [0; 1; 2] [0; 10; 40] 1.5).
  - reflexivity.
  - simpl; lia.
  - intros [|[|i]] Hi; simpl in Hi; try reflexivity; lia.
  - reflexivity.
Defined.

(** C4, as stated, fails: the query 1 does not exceed the last breakpoint of
    the table x=[0,1], and [interp] returns [undefined] there. *)
Lemma interp_at_last_breakpoint_undefined :
  interp [0; 1] [0; 10] 1 = Undefined
  /\ (last_breakpoint [0; 1] <? 1) = false
  /\ ~ exceeds_all [0; 1] 1.
Proof.
  repeat split; try reflexivity.
  intros Hall. specialize (Hall 1 (or_intror (or_introl eq_refl))).
  discriminate Hall.
Qed.

(** C4, amended. On a table whose x-values increase strictly, of length at
    least 2, [interp] returns [undefined] exactly when the query is not
    strictly below the last breakpoint (it is at or above it, or is NaN),
    and a number for every query strictly below the last breakpoint. *)
Theorem interp_undefined_iff (VX VY : list float) (X : float) :
  (2 <= length VX)%nat ->
  strictly_increasing VX ->
  (interp VX VY X = Undefined <-> (X <? last_breakpoint VX) = false)
  /\ ((X <? last_breakpoint VX) = true -> exists y, interp VX VY X = Num y).
Proof.
  intros Hlen Hinc.
  destruct (interp_cases VX VY X) as [(i & (Hi & Hlt & _) & Hres)|[Hnone Hres]].
  - pose proof (@below_some_below_last VX X (S i) Hinc Hlt) as Hlast.
    rewrite Hres, Hlast. repeat split; try discriminate. now eexists.
  - pose proof (@none_above_not_below_last VX X Hlen Hnone) as Hlast.
    rewrite Hres, Hlast. repeat split; discriminate.
Qed.

Lemma interp_undefined_iff_witness :
  (interp [0; 1; 2] [0; 10; 40] 2 = Undefined
   <-> (2 <? last_breakpoint [0; 1; 2]) = false)
  /\ ((2 <? last_breakpoint [0; 1; 2]) = true ->
      exists y, interp [0; 1; 2] [0; 10; 40] 2 = Num y).
Proof.
  apply (@interp_undefined_iff [0; 1; 2] [0; 10; 40] 2).
  - simpl; lia.
  - intros [|[|i]] Hi; simpl in Hi; try reflexivity; lia.
Defined.

(** ** [getSpeedDistribution] *)

Section SpeedDistribution.

Context `{Math}.

Lemma speed_loop_length (omega v0 dR : float) (n : nat) (localR : float) :
  length (speed_loop omega v0 dR n localR) = n.
Proof.
  revert localR. induction n as [|n IH]; intros localR; simpl; [|rewrite IH];
    reflexivity.
Qed.

(** Every sample is computed from its own radius. *)
Lemma speed_loop_sample (omega v0 dR : float) (n : nat) (localR : float)
  (s : SectionSample) :
  In s (speed_loop omega v0 dR n localR) ->
  localVelocity s
  = sqrt (v0 * v0 + (omega * range s) * (omega * range s))
  /\ localAoA s = - atan (v0 / (omega * range s)) * 57.3.
Proof.
  revert localR. induction n as [|n IH]; intros localR; simpl.
  - intros [].
  - intros [<-|Hin]; [now split | now apply IH with (localR + dR)].
Qed.

Lemma zero_speed_AoA (omega : float) (s : SectionSample) :
  nonzero_number (omega * range s) ->
  localAoA s = - atan (0 / (omega * range s)) * 57.3 ->
  (localAoA s =? 0) = true.
Proof.
  intros [Hpos|Hneg] ->.
  - now rewrite (div_zero_pos Hpos), atan_pos_zero.
  - now rewrite (div_zero_neg Hneg), atan_neg_zero.
Qed.

End SpeedDistribution.

(** C7, as stated, fails: at RPM = 1 the angular speeds [2*PI*1] and
    [2*PI*60/60] differ in their last bit, and so do the resultant
    velocities of the samples. *)
Lemma variants_differ_at_one_rpm :
  Variant1.getSpeedDistribution 1 1 0 1
  = [{| range := 0.5; localVelocity := 0x1.921fb54442d18p+1; localAoA := -0 |}]
  /\ Variant2.getSpeedDistribution (60 * 1) 1 0 1
     = [{| range := 0.5; localVelocity := 0x1.921fb54442d17p+1; localAoA := -0 |}]
  /\ (0x1.921fb54442d18p+1 =? 0x1.921fb54442d17p+1) = false.
Proof. repeat split; vm_compute; reflexivity. Qed.

(** C7, amended. The two [getSpeedDistribution] differ only in the angular
    speed they compute: whenever the first variant at rotational speed [r]
    and the second at [r'] compute the same angular speed, they return the
    same samples. *)
Theorem variants_agree_on_equal_angular_speed `{Math}
  (r r' R v0 : float) (N : nat) :
  Variant1.angular_speed r = Variant2.angular_speed r' ->
  Variant1.getSpeedDistribution r R v0 N
  = Variant2.getSpeedDistribution r' R v0 N.
Proof.
  intros Homega.
  unfold Variant1.getSpeedDistribution, Variant2.getSpeedDistribution.
  now rewrite Homega.
Qed.

Lemma variants_agree_on_equal_angular_speed_witness :
  Variant1.getSpeedDistribution 3 0.2 10 11
  = Variant2.getSpeedDistribution (60 * 3) 0.2 10 11.
Proof.
  apply (@variants_agree_on_equal_angular_speed fdlibm 3 (60 * 3) 0.2 10 11).
  reflexivity.
Defined.

(** C10, as stated, fails: at rotational speed 0 the tangential velocity is
    0, [0 / 0] is NaN, and the local angle of attack is NaN. *)
Lemma zero_rpm_AoA_is_nan :
  map localAoA (Variant1.getSpeedDistribution 0 1 0 1) = [nan]
  /\ map localAoA (Variant2.getSpeedDistribution 0 1 0 1) = [nan]
  /\ (nan =? 0) = false.
Proof. repeat split; vm_compute; reflexivity. Qed.

(** C10, amended. At forward speed 0, every section whose tangential
    velocity [omega * range] is a number other than zero has a local angle
    of attack equal to 0, in both variants. *)
Theorem zero_forward_speed_zero_AoA `{Math}
  (RPM R : float) (N : nat) (s : SectionSample) :
  (In s (Variant1.getSpeedDistribution RPM R 0 N) ->
   nonzero_number (Variant1.angular_speed RPM * range s) ->
   (localAoA s =? 0) = true)
  /\ (In s (Variant2.getSpeedDistribution RPM R 0 N) ->
      nonzero_number (Variant2.angular_speed RPM * range s) ->
      (localAoA s =? 0) = true).
Proof.
  split; intros Hin Hnz; apply speed_loop_sample in Hin as [_ HAoA];
    eapply zero_speed_AoA; eassumption.
Qed.

Lemma zero_forward_speed_zero_AoA_witness :
  (localAoA {| range := 0.5; localVelocity := 0x1.921fb54442d18p+1;
               localAoA := -0 |} =? 0) = true
  /\ (localAoA {| range := 0.5; localVelocity := 0x1.921fb54442d17p+1;
                  localAoA := -0 |} =? 0) = true.
Proof.
  split.
  - apply (proj1 (@zero_forward_speed_zero_AoA fdlibm 1 1 1 _)).
    + left. reflexivity.
    + left. reflexivity.
  - apply (proj2 (@zero_forward_speed_zero_AoA fdlibm 60 1 1 _)).
    + left. reflexivity.
    + left. reflexivity.
Defined.

(** ** [getSingleBladeForces] *)

(** The drag accumulator is only ever added to itself. *)
Lemma force_loop_totalDrag (section : SectionSample -> SectionForce)
  (samples : list SectionSample) (acc : Summary) :
  totalDrag acc = 0 ->
  totalDrag (snd (force_loop section samples acc)) = 0.
Proof.
  revert acc. induction samples as [|s rest IH]; intros acc Hacc; simpl.
  - exact Hacc.
  - match goal with
    | |- context [force_loop section rest ?a] =>
        specialize (IH a); destruct (force_loop section rest a) as [fs out]
    end.
    simpl in *. apply IH. now rewrite Hacc.
Qed.

Section ForceLoop.

Variable section : SectionSample -> SectionForce.

Lemma force_loop_forces (samples : list SectionSample) (acc : Summary) :
  fst (force_loop section samples acc) = map section samples.
Proof.
  revert acc. induction samples as [|s rest IH]; intros acc; simpl; trivial.
  match goal with
  | |- context [force_loop section rest ?a] =>
      specialize (IH a); destruct (force_loop section rest a) as [fs out]
  end.
  simpl in *. now rewrite IH.
Qed.

(** Once a total is NaN it stays NaN, and a NaN section makes it so. *)
Lemma force_loop_nan (samples : list SectionSample) (acc : Summary) :
  (totalThrust acc = nan /\ totalTorque acc = nan)
  \/ (exists s, In s samples /\ section s = nan_force) ->
  totalThrust (snd (force_loop section samples acc)) = nan
  /\ totalTorque (snd (force_loop section samples acc)) = nan.
Proof.
  revert acc. induction samples as [|s rest IH]; intros acc Hnan; simpl.
  - destruct Hnan as [Hacc|(s & [] & _)]. exact Hacc.
  - match goal with
    | |- context [force_loop section rest ?a] =>
        specialize (IH a); destruct (force_loop section rest a) as [fs out]
    end.
    simpl in *. apply IH.
    destruct Hnan as [[HT HQ]|(s' & [<-|Hin] & Hs')].
    + left. now rewrite HT, HQ, !add_nan_l.
    + left. rewrite Hs'. simpl. now rewrite !add_nan_r.
    + right. now exists s'.
Qed.

End ForceLoop.

Section Blade.

Context `{Math}.

(** [speedDistribution] has [N] entries: the loop of
    [getSingleBladeForces], which reads [speedDistribution[i]] for
    [i < N], visits each of them once. *)
Lemma speedDistribution_length (RPM R v0 : float) (N : nat) :
  length (Variant1.getSpeedDistribution RPM R v0 N) = N
  /\ length (Variant2.getSpeedDistribution RPM R v0 N) = N.
Proof. split; apply speed_loop_length. Qed.

Lemma getSingleBladeForces1_forces (RX AX SX : list float)
  (Cx0 RPM v0 Ro : float) (AX_CY CY POLAR VX dAVX : list float) :
  let r := Variant1.getSingleBladeForces
             RX AX SX Cx0 RPM v0 Ro AX_CY CY POLAR VX dAVX in
  speedDistribution r
  = Variant1.getSpeedDistribution RPM (nth_num RX (length RX - 1)) v0
      (length RX)
  /\ forceDistribution r
     = map (Variant1.section_force RX AX SX Cx0 Ro AX_CY CY POLAR
              (pitch_correction VX dAVX v0))
         (speedDistribution r).
Proof.
  unfold Variant1.getSingleBladeForces. fold (pitch_correction VX dAVX v0).
  match goal with
  | |- context [force_loop ?f ?l ?a] =>
      pose proof (force_loop_forces f l a) as Hforces;
      destruct (force_loop f l a) as [fs out]
  end.
  now split.
Qed.

Lemma getSingleBladeForces2_forces (RX AX SX : list float)
  (RPM v0 Ro : float) (AX_CY CY CX VX dAVX : list float) :
  let r := Variant2.getSingleBladeForces
             RX AX SX RPM v0 Ro AX_CY CY CX VX dAVX in
  speedDistribution r
  = Variant2.getSpeedDistribution RPM (nth_num RX (length RX - 1)) v0
      (length RX)
  /\ forceDistribution r
     = map (Variant2.section_force RX AX SX Ro AX_CY CY CX
              (pitch_correction VX dAVX v0))
         (speedDistribution r).
Proof.
  unfold Variant2.getSingleBladeForces. fold (pitch_correction VX dAVX v0).
  match goal with
  | |- context [force_loop ?f ?l ?a] =>
      pose proof (force_loop_forces f l a) as Hforces;
      destruct (force_loop f l a) as [fs out]
  end.
  now split.
Qed.

End Blade.

(** C1. For every input, the summary returned by [getSingleBladeForces] has
    [totalDrag] equal to 0, in both variants of the program: the
    accumulator starts at 0 and is updated by [totalDrag += totalDrag]. *)
Theorem getSingleBladeForces_totalDrag_zero `{Math}
  (RX AX SX : list float) (Cx0 RPM v0 Ro : float)
  (AX_CY CY POLAR CX VX dAVX : list float) :
  totalDrag (summary (Variant1.getSingleBladeForces
                        RX AX SX Cx0 RPM v0 Ro AX_CY CY POLAR VX dAVX)) = 0
  /\ totalDrag (summary (Variant2.getSingleBladeForces
                           RX AX SX RPM v0 Ro AX_CY CY CX VX dAVX)) = 0.
Proof.
  split.
  - unfold Variant1.getSingleBladeForces.
    match goal with
    | |- context [force_loop ?f ?l ?a] =>
        pose proof (@force_loop_totalDrag f l a eq_refl) as Hdrag;
        destruct (force_loop f l a) as [fs out]
    end.
    exact Hdrag.
  - unfold Variant2.getSingleBladeForces.
    match goal with
    | |- context [force_loop ?f ?l ?a] =>
        pose proof (@force_loop_totalDrag f l a eq_refl) as Hdrag;
        destruct (force_loop f l a) as [fs out]
    end.
    exact Hdrag.
Qed.

Section Propagation.

Lemma total_AoA_nan (RX AX : list float) (dAlpha : value) (s : SectionSample) :
  dAlpha = Undefined \/ interp RX AX (range s) = Undefined ->
  total_AoA RX AX dAlpha s = nan.
Proof.
  unfold total_AoA. intros [->| ->]; simpl.
  - apply add_nan_r.
  - now rewrite !add_nan_l.
Qed.

(** A failed lookup leaves the coefficient lookups undefined as well. *)
Lemma lookup_fails_cases (RX AX SX AX_CY : list float) (dAlpha : value)
  (s : SectionSample) :
  lookup_fails RX AX SX AX_CY dAlpha s ->
  interp RX SX (range s) = Undefined
  \/ forall Y, interp AX_CY Y (total_AoA RX AX dAlpha s) = Undefined.
Proof.
  intros [Hd|[Hs|[Ha|[Y HY]]]].
  - right. intros Y. rewrite total_AoA_nan by now left. apply interp_nan.
  - now left.
  - right. intros Y. rewrite total_AoA_nan by now right. apply interp_nan.
  - right. intros Y'. now apply interp_undefined_any_y with Y.
Qed.

Lemma section_force1_nan (RX AX SX : list float) (Cx0 Ro : float)
  (AX_CY CY POLAR : list float) (dAlpha : value) (s : SectionSample) :
  lookup_fails RX AX SX AX_CY dAlpha s ->
  Variant1.section_force RX AX SX Cx0 Ro AX_CY CY POLAR dAlpha s = nan_force.
Proof.
  intros Hfail. unfold Variant1.section_force.
  fold (total_AoA RX AX dAlpha s).
  destruct (lookup_fails_cases Hfail) as [->|Hcoef].
  - simpl. now rewrite !mul_nan_l, !mul_nan_r, !mul_nan_l.
  - rewrite !Hcoef. simpl.
    now rewrite !mul_nan_l, add_nan_r, !mul_nan_l.
Qed.

Lemma section_force2_nan (RX AX SX : list float) (Ro : float)
  (AX_CY CY CX : list float) (dAlpha : value) (s : SectionSample) :
  lookup_fails RX AX SX AX_CY dAlpha s ->
  Variant2.section_force RX AX SX Ro AX_CY CY CX dAlpha s = nan_force.
Proof.
  intros Hfail. unfold Variant2.section_force.
  fold (total_AoA RX AX dAlpha s).
  destruct (lookup_fails_cases Hfail) as [->|Hcoef].
  - simpl. now rewrite !mul_nan_l, !mul_nan_r, !mul_nan_l.
  - rewrite !Hcoef. simpl. now rewrite !mul_nan_l.
Qed.

End Propagation.

(** C2, as stated, fails. At forward speed 300, beyond the last breakpoint
    275 of the shipped pitch table, the pitch lookup returns [undefined];
    [getSingleBladeForces] returns a summary whose thrust and torque are
    NaN, and the sweep up to that speed completes normally with a NaN
    point. *)
Lemma out_of_range_pitch_lookup_is_not_an_error :
  let g := Variant1.geometry testAirScrew1 in
  let a := Variant1.aerodynamics testAirScrew1 in
  interp (or_default [] (VX g)) (or_default [] (dAVX g)) 300 = Undefined
  /\ summary (Variant1.getSingleBladeForces (RX g) (AX g) (SX g)
                (Variant1.Cx0 a) 95 300 1.225 (Variant1.AX_CY a)
                (Variant1.CY a) (Variant1.POLAR a)
                (or_default [] (VX g)) (or_default [] (dAVX g)))
     = {| totalThrust := nan; totalDrag := 0; totalTorque := nan |}
  /\ exists p,
       call Variant1.getSpeedThrustPerformance (sweep_config 0 300 1)
       = Normal [p; {| Point.V := 1080; Point.thrust := nan;
                       Point.torque := nan; Point.power := nan;
                       Point.thrustCoeff := nan;
                       Point.thrust2power := nan |}].
Proof.
  repeat split; try (vm_compute; reflexivity).
  eexists. vm_compute. reflexivity.
Qed.

(** Entries that are aligned with a list of images are related to their
    own originals. *)
Lemma Forall2_with_map (A B : Type) (P : A -> B -> Prop) (f : A -> B)
  (l : list A) :
  (forall a, P a (f a)) -> Forall2 P l (map f l).
Proof. intros HP. induction l; simpl; constructor; trivial. Qed.

Lemma Forall2_all_r (A B : Type) (P : A -> Prop) (Q : B -> Prop)
  (l : list A) (l' : list B) :
  Forall2 (fun a b => P a -> Q b) l l' -> (forall a, P a) -> Forall Q l'.
Proof.
  intros Hall HP. induction Hall as [|a b l l' Hab _ IH]; constructor; auto.
Qed.

(** C2, amended. [getSingleBladeForces] raises no error: the call completes
    normally. When an interpolation made for a section of the blade finds
    no segment (pitch correction, section area, twist, or a coefficient),
    the absent value becomes NaN: the entry of [forceDistribution] at the
    index of that section has a thrust, a drag and a torque that are NaN,
    and the total thrust and the total torque of the summary are NaN as
    well, in both variants. *)
Theorem out_of_range_lookup_propagates_nan `{Math}
  (RX AX SX : list float) (Cx0 RPM v0 Ro : float)
  (AX_CY CY POLAR CX VX dAVX : list float) :
  let fails := lookup_fails RX AX SX AX_CY (pitch_correction VX dAVX v0) in
  let nan_where_fails r :=
    Forall2 (fun s f => fails s -> f = nan_force)
      (speedDistribution r) (forceDistribution r)
    /\ ((exists s, In s (speedDistribution r) /\ fails s) ->
        totalThrust (summary r) = nan /\ totalTorque (summary r) = nan) in
  let r1 := Variant1.getSingleBladeForces
              RX AX SX Cx0 RPM v0 Ro AX_CY CY POLAR VX dAVX in
  let r2 := Variant2.getSingleBladeForces
              RX AX SX RPM v0 Ro AX_CY CY CX VX dAVX in
  (call (Variant1.getSingleBladeForces
           RX AX SX Cx0 RPM v0 Ro AX_CY CY POLAR VX) dAVX = Normal r1
   /\ nan_where_fails r1)
  /\ (call (Variant2.getSingleBladeForces
              RX AX SX RPM v0 Ro AX_CY CY CX VX) dAVX = Normal r2
      /\ nan_where_fails r2).
Proof.
  intros fails nan_where_fails r1 r2.
  subst fails nan_where_fails r1 r2. cbv beta.
  split; (split; [reflexivity|]).
  - unfold Variant1.getSingleBladeForces.
    fold (pitch_correction VX dAVX v0).
    match goal with
    | |- context [force_loop ?f ?l ?a] =>
        pose proof (force_loop_forces f l a) as Hforces;
        pose proof (@force_loop_nan f l a) as Htotals;
        destruct (force_loop f l a) as [fs out]
    end.
    simpl in *. subst fs. split.
    + apply Forall2_with_map. intros s Hfail.
      now apply section_force1_nan.
    + intros (s & Hin & Hfail). apply Htotals. right. exists s.
      split; trivial. now apply section_force1_nan.
  - unfold Variant2.getSingleBladeForces.
    fold (pitch_correction VX dAVX v0).
    match goal with
    | |- context [force_loop ?f ?l ?a] =>
        pose proof (force_loop_forces f l a) as Hforces;
        pose proof (@force_loop_nan f l a) as Htotals;
        destruct (force_loop f l a) as [fs out]
    end.
    simpl in *. subst fs. split.
    + apply Forall2_with_map. intros s Hfail.
      now apply section_force2_nan.
    + intros (s & Hin & Hfail). apply Htotals. right. exists s.
      split; trivial. now apply section_force2_nan.
Qed.

Lemma out_of_range_lookup_propagates_nan_witness :
  let g := Variant1.geometry testAirScrew1 in
  let a := Variant1.aerodynamics testAirScrew1 in
  let r := Variant1.getSingleBladeForces (RX g) (AX g) (SX g)
             (Variant1.Cx0 a) 95 300 1.225 (Variant1.AX_CY a)
             (Variant1.CY a) (Variant1.POLAR a)
             (or_default [] (VX g)) (or_default [] (dAVX g)) in
  Forall (fun f => f = nan_force) (forceDistribution r)
  /\ totalThrust (summary r) = nan /\ totalTorque (summary r) = nan.
Proof.
  intros g a r.
  pose proof (proj2 (proj1 (@out_of_range_lookup_propagates_nan fdlibm
                              (RX g) (AX g) (SX g) (Variant1.Cx0 a) 95 300
                              1.225 (Variant1.AX_CY a) (Variant1.CY a)
                              (Variant1.POLAR a) []
                              (or_default [] (VX g))
                              (or_default [] (dAVX g)))))
    as [Hforces Htotals].
  split.
  - refine (@Forall2_all_r _ _
              (lookup_fails (RX g) (AX g) (SX g) (Variant1.AX_CY a)
                 (pitch_correction (or_default [] (VX g))
                    (or_default [] (dAVX g)) 300))
              (fun f => f = nan_force) _ _ Hforces _).
    intros s. left. reflexivity.
  - apply Htotals.
    exists (hd {| range := 0; localVelocity := 0; localAoA := 0 |}
              (speedDistribution r)).
    split; [vm_compute; left; reflexivity | left; reflexivity].
Defined.

Section Density.

(** The local pressure term doubles with the density. *)
Lemma localQS_double (Ro area Cya Cxa v : float) :
  density_tame Ro area Cya Cxa v = true ->
  area * (0.5 * (2 * Ro) * v * v) = 2 * (area * (0.5 * Ro * v * v))
  /\ tame (area * (0.5 * Ro * v * v)) = true
  /\ tame Cya = true /\ tame Cxa = true.
Proof.
  unfold density_tame. cbn [forallb]. rewrite !andb_true_iff.
  intros (HRo & Ha0 & Ha1 & Ha2 & Ha3 & Hv & Harea & HCya & HCxa & _).
  repeat split; trivial.
  rewrite (@double_mul_r Ro 0.5 HRo eq_refl).
  rewrite (@double_mul_l _ v Ha0 Hv), (@double_mul_l _ v Ha1 Hv).
  now apply double_mul_r.
Qed.

Lemma section_force1_double (RX AX SX : list float) (Cx0 Ro : float)
  (AX_CY CY POLAR : list float) (dAlpha : value) (s : SectionSample) :
  density_tame Ro (section_area RX SX s)
    (lift_coefficient RX AX AX_CY CY dAlpha s)
    (drag_coefficient1 RX AX Cx0 AX_CY CY POLAR dAlpha s)
    (localVelocity s) = true ->
  let f := Variant1.section_force RX AX SX Cx0 Ro AX_CY CY POLAR dAlpha s in
  let f' :=
    Variant1.section_force RX AX SX Cx0 (2 * Ro) AX_CY CY POLAR dAlpha s in
  thrust f' = 2 * thrust f /\ drag f' = 2 * drag f.
Proof.
  intros Htame. destruct (localQS_double _ _ _ _ _ Htame)
    as (HQS & Ha3 & HCya & HCxa).
  unfold Variant1.section_force. cbn [thrust drag].
  fold (section_area RX SX s). fold (total_AoA RX AX dAlpha s).
  fold (lift_coefficient RX AX AX_CY CY dAlpha s).
  fold (drag_coefficient1 RX AX Cx0 AX_CY CY POLAR dAlpha s).
  rewrite HQS. split; now apply double_mul_r.
Qed.

Lemma section_force2_double (RX AX SX : list float) (Ro : float)
  (AX_CY CY CX : list float) (dAlpha : value) (s : SectionSample) :
  density_tame Ro (section_area RX SX s)
    (lift_coefficient RX AX AX_CY CY dAlpha s)
    (drag_coefficient2 RX AX AX_CY CX dAlpha s)
    (localVelocity s) = true ->
  let f := Variant2.section_force RX AX SX Ro AX_CY CY CX dAlpha s in
  let f' := Variant2.section_force RX AX SX (2 * Ro) AX_CY CY CX dAlpha s in
  thrust f' = 2 * thrust f /\ drag f' = 2 * drag f.
Proof.
  intros Htame. destruct (localQS_double _ _ _ _ _ Htame)
    as (HQS & Ha3 & HCya & HCxa).
  unfold Variant2.section_force. cbn [thrust drag].
  fold (section_area RX SX s). fold (total_AoA RX AX dAlpha s).
  fold (lift_coefficient RX AX AX_CY CY dAlpha s).
  fold (drag_coefficient2 RX AX AX_CY CX dAlpha s).
  rewrite HQS. split; now apply double_mul_r.
Qed.

End Density.

(** C9, as stated, fails. At density 2e305 the fourth section of the
    shipped blade has thrust 2.76e304; at twice that density the dynamic
    pressure overflows and the thrust is infinite, not 5.52e304. *)
Lemma doubled_density_overflows :
  nth 3 (map thrust (forceDistribution (shipped_blade 2e305))) nan
  = 2.7597561341534928e+304
  /\ nth 3 (map thrust (forceDistribution (shipped_blade (2 * 2e305)))) nan
     = infinity
  /\ (infinity =? 2 * 2.7597561341534928e+304) = false.
Proof. repeat split; vm_compute; reflexivity. Qed.

(** C9, amended. Doubling the density leaves the section samples unchanged
    and exactly doubles the local thrust and the local drag of every
    section for which the density, the section's velocity, area and
    coefficients and the intermediate products of the dynamic pressure are
    tame (zero, infinite, NaN, or of magnitude between 2^-400 and 2^400),
    in both variants. *)
Theorem density_doubling `{Math} (RX AX SX : list float)
  (Cx0 RPM v0 Ro : float) (AX_CY CY POLAR CX VX dAVX : list float) :
  let dAlpha := pitch_correction VX dAVX v0 in
  (let r := Variant1.getSingleBladeForces
              RX AX SX Cx0 RPM v0 Ro AX_CY CY POLAR VX dAVX in
   let r' := Variant1.getSingleBladeForces
               RX AX SX Cx0 RPM v0 (2 * Ro) AX_CY CY POLAR VX dAVX in
   let force Ro := Variant1.section_force RX AX SX Cx0 Ro AX_CY CY POLAR dAlpha in
   speedDistribution r' = speedDistribution r
   /\ forceDistribution r = map (force Ro) (speedDistribution r)
   /\ forceDistribution r' = map (force (2 * Ro)) (speedDistribution r)
   /\ forall s,
        density_tame Ro (section_area RX SX s)
          (lift_coefficient RX AX AX_CY CY dAlpha s)
          (drag_coefficient1 RX AX Cx0 AX_CY CY POLAR dAlpha s)
          (localVelocity s) = true ->
        thrust (force (2 * Ro) s) = 2 * thrust (force Ro s)
        /\ drag (force (2 * Ro) s) = 2 * drag (force Ro s))
  /\ (let r := Variant2.getSingleBladeForces
                 RX AX SX RPM v0 Ro AX_CY CY CX VX dAVX in
      let r' := Variant2.getSingleBladeForces
                  RX AX SX RPM v0 (2 * Ro) AX_CY CY CX VX dAVX in
      let force Ro := Variant2.section_force RX AX SX Ro AX_CY CY CX dAlpha in
      speedDistribution r' = speedDistribution r
      /\ forceDistribution r = map (force Ro) (speedDistribution r)
      /\ forceDistribution r' = map (force (2 * Ro)) (speedDistribution r)
      /\ forall s,
           density_tame Ro (section_area RX SX s)
             (lift_coefficient RX AX AX_CY CY dAlpha s)
             (drag_coefficient2 RX AX AX_CY CX dAlpha s)
             (localVelocity s) = true ->
           thrust (force (2 * Ro) s) = 2 * thrust (force Ro s)
           /\ drag (force (2 * Ro) s) = 2 * drag (force Ro s)).
Proof.
  intros dAlpha. split.
  - intros r r' force.
    destruct (getSingleBladeForces1_forces RX AX SX Cx0 RPM v0 Ro
                AX_CY CY POLAR VX dAVX) as [Hs Hf].
    destruct (getSingleBladeForces1_forces RX AX SX Cx0 RPM v0 (2 * Ro)
                AX_CY CY POLAR VX dAVX) as [Hs' Hf'].
    fold r in Hs, Hf. fold r' in Hs', Hf'.
    assert (speedDistribution r' = speedDistribution r) as Heq
      by now rewrite Hs, Hs'.
    repeat split; trivial.
    + now rewrite <- Heq.
    + now apply section_force1_double.
    + now apply section_force1_double.
  - intros r r' force.
    destruct (getSingleBladeForces2_forces RX AX SX RPM v0 Ro
                AX_CY CY CX VX dAVX) as [Hs Hf].
    destruct (getSingleBladeForces2_forces RX AX SX RPM v0 (2 * Ro)
                AX_CY CY CX VX dAVX) as [Hs' Hf'].
    fold r in Hs, Hf. fold r' in Hs', Hf'.
    assert (speedDistribution r' = speedDistribution r) as Heq
      by now rewrite Hs, Hs'.
    repeat split; trivial.
    + now rewrite <- Heq.
    + now apply section_force2_double.
    + now apply section_force2_double.
Qed.

Lemma density_doubling_witness :
  let g := Variant1.geometry testAirScrew1 in
  let a := Variant1.aerodynamics testAirScrew1 in
  let dAlpha :=
    pitch_correction (or_default [] (VX g)) (or_default [] (dAVX g)) 0 in
  let force Ro :=
    Variant1.section_force (RX g) (AX g) (SX g) (Variant1.Cx0 a) Ro
      (Variant1.AX_CY a) (Variant1.CY a) (Variant1.POLAR a) dAlpha in
  let s := hd {| range := 0; localVelocity := 0; localAoA := 0 |}
             (speedDistribution (shipped_blade 1.225)) in
  thrust (force (2 * 1.225) s) = 2 * thrust (force 1.225 s)
  /\ drag (force (2 * 1.225) s) = 2 * drag (force 1.225 s).
Proof.
  intros g a dAlpha force s.
  refine (proj2 (proj2 (proj2 (proj1
            (@density_doubling fdlibm (RX g) (AX g) (SX g) (Variant1.Cx0 a)
               95 0 1.225 (Variant1.AX_CY a) (Variant1.CY a)
               (Variant1.POLAR a) [] (or_default [] (VX g))
               (or_default [] (dAVX g)))))) s _).
  vm_compute. reflexivity.
Defined.

(** ** [getSpeedThrustPerformance] *)

Section Sweep.

Variables (blade : float -> Summary) (nBlade omega area Ro dV : float).

Lemma sweep_loop_length (n : nat) (V : float) :
  length (sweep_loop blade nBlade omega area Ro dV n V) = n.
Proof.
  revert V. induction n as [|n IH]; intros V; simpl; [|rewrite IH];
    reflexivity.
Qed.


Lemma speeds_step (n i : nat) (V : float) :
  (S i < n)%nat ->
  nth (S i) (speeds dV n V) nan = nth i (speeds dV n V) nan + dV.
Proof.
  revert n V. induction i as [|i IH]; intros n V Hi.
  - destruct n as [|[|n]]; [lia|lia|reflexivity].
  - destruct n as [|n]; [lia|]. simpl. apply IH. lia.
Qed.

End Sweep.

Lemma sweep_loop_points (blade : float -> Summary)
  (nBlade omega area Ro dV : float) (n : nat) (V : float) :
  sweep_loop blade nBlade omega area Ro dV n V
  = map (sweep_point blade nBlade omega area Ro) (speeds dV n V).
Proof.
  revert V. induction n as [|n IH]; intros V; simpl; [|rewrite IH];
    reflexivity.
Qed.

Lemma sweep_point_double (blade : float -> Summary)
  (n omega area Ro V : float) :
  blades_tame (totalThrust (blade V)) (totalTorque (blade V)) n omega
    (area * (0.5 * Ro * V * V)) = true ->
  let p := sweep_point blade n omega area Ro V in
  let p' := sweep_point blade (n * 2) omega area Ro V in
  Point.V p' = Point.V p
  /\ Point.thrust p' = 2 * Point.thrust p
  /\ Point.torque p' = 2 * Point.torque p
  /\ Point.power p' = 2 * Point.power p
  /\ Point.thrustCoeff p' = 2 * Point.thrustCoeff p
  /\ Point.thrust2power p' = Point.thrust2power p.
Proof.
  unfold blades_tame. cbn [forallb]. rewrite !andb_true_iff.
  intros (Hn & HT & HTq & HTn & HTqn & Hom & Hpow & HaQ & _).
  unfold sweep_point. cbn.
  rewrite (mul_comm n 2).
  rewrite (@double_mul_r n _ Hn HT), (@double_mul_r n _ Hn HTq).
  rewrite (@double_mul_l _ omega HTqn Hom).
  repeat split.
  - now apply double_div.
  - now apply double_div_both.
Qed.



(** C8, as stated, fails: a configuration with no blade, and with [nV = 0]
    and [v0 = v1], is run like any other and yields a point. *)
Lemma degenerate_configuration_is_computed :
  degenerate1 no_blade_config
  /\ call Variant1.getSpeedThrustPerformance no_blade_config
     = Normal [{| Point.V := 0; Point.thrust := 0; Point.torque := 0;
                  Point.power := 0; Point.thrustCoeff := nan;
                  Point.thrust2power := nan |}].
Proof. split; [left; reflexivity | vm_compute; reflexivity]. Qed.

(** C8, amended. [getSpeedThrustPerformance] validates nothing: on every
    configuration, degenerate or not, the call completes normally with the
    [nV + 1] points of the sweep. *)
Theorem sweep_accepts_every_configuration `{Math} (d : Variant1.InitData) :
  exists points,
    call Variant1.getSpeedThrustPerformance d = Normal points
    /\ length points = (nV (Variant1.environment d) + 1)%nat.
Proof.
  eexists. split; [reflexivity|].
  unfold Variant1.getSpeedThrustPerformance. apply sweep_loop_length.
Qed.

(** C5, as stated, fails on the shipped configuration of the first variant
    (6 blades). With twice the blades the thrust coefficient of the second
    point is twice as large (about 87.64 for 43.82), not unchanged. With
    three times the blades the thrust of the fourth point (62.724070814587826)
    is not three times the thrust (62.724070814587819), and the
    thrust-to-power ratio of the third point changes in its last digits: the
    products are rounded differently. *)
Lemma blade_count_scaling_fails :
  Point.thrustCoeff (scaled_point 2 1)
  = 2 * Point.thrustCoeff (scaled_point 1 1)
  /\ (Point.thrustCoeff (scaled_point 2 1)
      =? Point.thrustCoeff (scaled_point 1 1)) = false
  /\ (Point.thrustCoeff (scaled_point 1 1) <? infinity) = true
  /\ (Point.thrust (scaled_point 1 3) * 3 <? Point.thrust (scaled_point 3 3))
     = true
  /\ (Point.thrust2power (scaled_point 3 2)
      <? Point.thrust2power (scaled_point 1 2)) = true.
Proof. repeat split; vm_compute; reflexivity. Qed.

(** C5, amended. Multiplying the blade count by any factor [k] leaves the
    forward speeds and the single-blade totals of the sweep unchanged: every
    point is built from the same blade summary with the blade count
    [nBlade * k]. For [k = 2], at every forward speed where the blade count,
    the single-blade thrust and torque, their products and the divisor
    [area * Q] are tame, the point's total thrust, total torque, total power
    and thrust coefficient are exactly doubled, and its thrust-to-power ratio
    is unchanged. *)
Theorem blade_count_doubling `{Math} (d : Variant1.InitData) (k : float) :
  let g := Variant1.geometry d in
  let e := Variant1.environment d in
  let omega := Variant1.angular_speed (RPM e) in
  let us := speeds (step e) (nV e + 1) (v0 e) in
  let point n := sweep_point (blade1 d) n omega (disc_area g) (Ro e) in
  Variant1.getSpeedThrustPerformance d = map (point (nBlade g)) us
  /\ Variant1.getSpeedThrustPerformance (with_nBlade d (nBlade g * k))
     = map (point (nBlade g * k)) us
  /\ forall V,
       blades_tame (totalThrust (blade1 d V)) (totalTorque (blade1 d V))
         (nBlade g) omega (disc_area g * (0.5 * Ro e * V * V)) = true ->
       Point.V (point (nBlade g * 2) V) = Point.V (point (nBlade g) V)
       /\ Point.thrust (point (nBlade g * 2) V)
          = 2 * Point.thrust (point (nBlade g) V)
       /\ Point.torque (point (nBlade g * 2) V)
          = 2 * Point.torque (point (nBlade g) V)
       /\ Point.power (point (nBlade g * 2) V)
          = 2 * Point.power (point (nBlade g) V)
       /\ Point.thrustCoeff (point (nBlade g * 2) V)
          = 2 * Point.thrustCoeff (point (nBlade g) V)
       /\ Point.thrust2power (point (nBlade g * 2) V)
          = Point.thrust2power (point (nBlade g) V).
Proof.
  intros g e omega us point.
  unfold Variant1.getSpeedThrustPerformance. rewrite !sweep_loop_points.
  repeat split; try reflexivity; now apply sweep_point_double.
Qed.

Lemma blade_count_doubling_witness :
  let g := Variant1.geometry testAirScrew1 in
  let e := Variant1.environment testAirScrew1 in
  let point n :=
    sweep_point (blade1 testAirScrew1) n (Variant1.angular_speed (RPM e))
      (disc_area g) (Ro e) in
  Point.V (point (6 * 2) 3) = Point.V (point 6 3)
  /\ Point.thrust (point (6 * 2) 3) = 2 * Point.thrust (point 6 3)
  /\ Point.torque (point (6 * 2) 3) = 2 * Point.torque (point 6 3)
  /\ Point.power (point (6 * 2) 3) = 2 * Point.power (point 6 3)
  /\ Point.thrustCoeff (point (6 * 2) 3) = 2 * Point.thrustCoeff (point 6 3)
  /\ Point.thrust2power (point (6 * 2) 3) = Point.thrust2power (point 6 3).
Proof.
  intros g e point.
  refine (proj2 (proj2 (@blade_count_doubling fdlibm testAirScrew1 2)) 3 _).
  vm_compute. reflexivity.
Defined.

(** * Further properties of the program *)

(** ** Classes of binary64 numbers *)

Section NumberClasses.

Lemma SFcompare_refl (x : spec_float) :
  SFcompare x x = Some Eq \/ x = S754_nan.
Proof.
  destruct x as [[|]|[|]| |[|] m e]; simpl; auto;
    rewrite Z.compare_refl; fold (Pos.compare m m);
    rewrite Pos.compare_refl; auto.
Qed.

(** [<] on numbers is irreflexive and asymmetric. *)
Lemma ltb_irrefl (x : float) : (x <? x) = false.
Proof.
  rewrite ltb_spec. unfold SFltb.
  destruct (SFcompare_refl (Prim2SF x)) as [->| ->]; reflexivity.
Qed.

Lemma ltb_asym (x y : float) : (x <? y) = true -> (y <? x) = false.
Proof.
  intros Hxy. destruct (y <? x) eqn:Hyx; trivial.
  pose proof (@ltb_trans x y x Hxy Hyx) as Hxx.
  rewrite ltb_irrefl in Hxx. discriminate.
Qed.

Lemma sub_nan_l (x : float) : nan - x = nan.
Proof. apply Prim2SF_inj. now rewrite sub_spec, Prim2SF_nan. Qed.

Lemma div_nan_l (x : float) : nan / x = nan.
Proof. apply Prim2SF_inj. now rewrite div_spec, Prim2SF_nan. Qed.

(** The classes of numbers, read on the specification side. *)
Lemma is_nan_spec (x : float) :
  is_nan x = true <-> Prim2SF x = S754_nan.
Proof.
  unfold is_nan. rewrite eqb_spec. unfold SFeqb.
  destruct (SFcompare_refl (Prim2SF x)) as [Heq|Hnan].
  - rewrite Heq. split; [discriminate|].
    intros Hnan. rewrite Hnan in Heq. discriminate.
  - rewrite Hnan. split; reflexivity.
Qed.

Lemma is_zero_spec (x : float) :
  is_zero x = true <-> exists s, Prim2SF x = S754_zero s.
Proof.
  unfold is_zero. rewrite eqb_spec.
  destruct Prim2SF_constants as (-> & _). unfold SFeqb.
  destruct (Prim2SF x) as [s|[|]| |[|] m e]; simpl; split;
    try discriminate; try (intros [s' Hs]; discriminate); eauto.
Qed.

Lemma is_infinity_spec (x : float) :
  is_infinity x = true <-> exists s, Prim2SF x = S754_infinity s.
Proof.
  unfold is_infinity. rewrite eqb_spec, abs_spec.
  destruct Prim2SF_constants as (_ & -> & _). unfold SFeqb.
  destruct (Prim2SF x) as [s|[|]| |[|] m e]; simpl; split;
    try discriminate; try (intros [s' Hs]; discriminate); eauto.
Qed.

Lemma zero_or_nan_spec (x : float) :
  zero_or_nan x = true
  <-> match Prim2SF x with
      | S754_zero _ | S754_nan => True
      | _ => False
      end.
Proof.
  unfold zero_or_nan. rewrite orb_true_iff, is_zero_spec, is_nan_spec.
  destruct (Prim2SF x); split; trivial; try (intros [[s' Hs]|Hn]; discriminate);
    try tauto; eauto.
Qed.

Lemma is_finite_spec (x : float) :
  is_finite x = true
  <-> match Prim2SF x with
      | S754_zero _ | S754_finite _ _ _ => True
      | _ => False
      end.
Proof.
  unfold is_finite. rewrite negb_true_iff, orb_false_iff.
  rewrite <- !not_true_iff_false, is_nan_spec, is_infinity_spec.
  destruct (Prim2SF x); split; trivial; try tauto;
    try (intros _; split; [discriminate | intros [s' Hs]; discriminate]);
    intros [Hnan Hinf]; try (now apply Hnan); apply Hinf; eauto.
Qed.

Lemma not_finite_spec (x : float) :
  is_finite x = false
  <-> match Prim2SF x with
      | S754_infinity _ | S754_nan => True
      | _ => False
      end.
Proof.
  rewrite <- not_true_iff_false, is_finite_spec.
  destruct (Prim2SF x); tauto.
Qed.

(** Zero and NaN absorb multiplication, up to the sign of zero. *)
Lemma mul_zero_or_nan_r (x z : float) :
  zero_or_nan z = true -> zero_or_nan (x * z) = true.
Proof.
  rewrite !zero_or_nan_spec, mul_spec. unfold SF64mul, SFmul.
  destruct (Prim2SF x) as [?|?| |? ? ?], (Prim2SF z) as [?|?| |? ? ?];
    tauto.
Qed.

Lemma mul_zero_or_nan_l (x z : float) :
  zero_or_nan z = true -> zero_or_nan (z * x) = true.
Proof. rewrite (mul_comm z x). apply mul_zero_or_nan_r. Qed.

Lemma add_zero_or_nan (x y : float) :
  zero_or_nan x = true -> zero_or_nan y = true -> zero_or_nan (x + y) = true.
Proof.
  rewrite !zero_or_nan_spec, add_spec. unfold SF64add, SFadd.
  destruct (Prim2SF x) as [[|]|?| |? ? ?], (Prim2SF y) as [[|]|?| |? ? ?];
    tauto.
Qed.

(** Dividing by zero or NaN never gives a finite number, and gives NaN when
    the dividend is zero or NaN as well. *)
Lemma div_by_zero_or_nan (x z : float) :
  zero_or_nan z = true -> is_finite (x / z) = false.
Proof.
  rewrite zero_or_nan_spec, not_finite_spec, div_spec. unfold SF64div, SFdiv.
  destruct (Prim2SF x) as [?|?| |? ? ?], (Prim2SF z) as [?|?| |? ? ?];
    tauto.
Qed.

Lemma div_zero_or_nan_both (x z : float) :
  zero_or_nan x = true -> zero_or_nan z = true -> x / z = nan.
Proof.
  rewrite !zero_or_nan_spec. intros Hx Hz. apply Prim2SF_inj.
  rewrite div_spec, Prim2SF_nan. unfold SF64div, SFdiv.
  destruct (Prim2SF x) as [?|?| |? ? ?], (Prim2SF z) as [?|?| |? ? ?];
    tauto.
Qed.

(** [x - x] is [+0] for a finite [x]. *)
Lemma sub_diag (x : float) : is_finite x = true -> x - x = 0.
Proof.
  rewrite is_finite_spec. intros Hx. apply Prim2SF_inj.
  rewrite sub_spec, Prim2SF_zero. unfold SF64sub, SFsub.
  destruct (Prim2SF x) as [[|]|?| |s m e]; try tauto; trivial.
  now rewrite Z.sub_diag.
Qed.

Lemma mul_finite_zero (k z : float) :
  is_finite k = true -> is_zero z = true -> is_zero (k * z) = true.
Proof.
  rewrite is_finite_spec, !is_zero_spec, mul_spec. intros Hk [s Hz].
  rewrite Hz. unfold SF64mul, SFmul.
  destruct (Prim2SF k) as [?|?| |? ? ?]; try tauto; eauto.
Qed.

(** Adding a zero to a finite number leaves it unchanged, up to the sign
    of zero. *)
Lemma add_zero_r (y z : float) :
  is_finite y = true -> is_zero z = true -> (y + z =? y) = true.
Proof.
  rewrite is_finite_spec, is_zero_spec, eqb_spec, add_spec.
  intros Hy [s Hz]. rewrite Hz. unfold SFeqb.
  destruct (Prim2SF y) as [[|]|?| |sy m e] eqn:Ey; try tauto;
    try (destruct s; reflexivity).
  unfold SF64add, SFadd.
  destruct (SFcompare_refl (S754_finite sy m e)) as [->|];
    [trivial|discriminate].
Qed.

End NumberClasses.

(** ** Signs in binary64 *)

Section Signs.

(** Rounding acts on the magnitude: the sign goes through unchanged. *)
Lemma binary_round_aux_opp (s : bool) (m e : Z) (l : location) :
  binary_round_aux prec emax (negb s) m e l
  = SFopp (binary_round_aux prec emax s m e l).
Proof.
  unfold binary_round_aux.
  destruct (shr_fexp prec emax m e l) as [mrs' e'].
  destruct (shr_fexp prec emax _ e' loc_Exact) as [mrs'' e''].
  destruct (shr_m mrs''); trivial.
  now destruct (e'' <=? emax - prec)%Z.
Qed.

Lemma binary_round_aux_not_negative (m e : Z) (l : location) :
  SFltb (binary_round_aux prec emax false m e l) (S754_zero false) = false.
Proof.
  unfold binary_round_aux.
  destruct (shr_fexp prec emax m e l) as [mrs' e'].
  destruct (shr_fexp prec emax _ e' loc_Exact) as [mrs'' e''].
  destruct (shr_m mrs''); trivial.
  now destruct (e'' <=? emax - prec)%Z.
Qed.

(** [Math.sqrt] returns no negative number. *)
Lemma sqrt_not_negative (x : float) : (sqrt x <? 0) = false.
Proof.
  rewrite ltb_spec, sqrt_spec, Prim2SF_zero. unfold SF64sqrt, SFsqrt.
  destruct (Prim2SF x) as [[|]|[|]| |[|] m e]; trivial.
  destruct (SFsqrt_core_binary prec emax (Z.pos m) e) as [[mz ez] lz].
  apply binary_round_aux_not_negative.
Qed.

Lemma SFmul_opp_l (x y : spec_float) :
  SF64mul (SFopp x) y = SFopp (SF64mul x y).
Proof.
  unfold SF64mul, SFmul.
  destruct x as [sx|sx| |sx mx ex], y as [sy|sy| |sy my ey];
    cbn [SFopp]; trivial; rewrite <- negb_xorb_l; trivial.
  apply binary_round_aux_opp.
Qed.

Lemma SFdiv_opp_l (x y : spec_float) :
  SF64div (SFopp x) y = SFopp (SF64div x y).
Proof.
  unfold SF64div, SFdiv.
  destruct x as [sx|sx| |sx mx ex], y as [sy|sy| |sy my ey];
    cbn [SFopp]; trivial; rewrite <- negb_xorb_l; trivial.
  destruct (SFdiv_core_binary prec emax (Z.pos mx) ex (Z.pos my) ey)
    as [[mz ez] lz].
  apply binary_round_aux_opp.
Qed.

(** Multiplication and division are odd in each argument. *)
Lemma mul_opp_l (x y : float) : (- x) * y = - (x * y).
Proof.
  apply Prim2SF_inj. rewrite opp_spec, !mul_spec, opp_spec.
  apply SFmul_opp_l.
Qed.

Lemma mul_opp_r (x y : float) : x * (- y) = - (x * y).
Proof. rewrite (mul_comm x (- y)), (mul_comm x y). apply mul_opp_l. Qed.

Lemma div_opp_l (x y : float) : (- x) / y = - (x / y).
Proof.
  apply Prim2SF_inj. rewrite opp_spec, !div_spec, opp_spec.
  apply SFdiv_opp_l.
Qed.

Lemma opp_involutive (x : float) : - - x = x.
Proof.
  apply Prim2SF_inj. rewrite !opp_spec.
  destruct (Prim2SF x); cbn [SFopp]; now rewrite ?negb_involutive.
Qed.

(** A square does not depend on the sign. *)
Lemma square_opp (x : float) : (- x) * (- x) = x * x.
Proof. now rewrite mul_opp_l, mul_opp_r, opp_involutive. Qed.

End Signs.

(** ** [interp] on arbitrary tables *)

Section InterpAnyTable.

Variables (VX VY : list float) (X : float).

Lemma first_above_unique (i j : nat) :
  first_above VX X i -> first_above VX X j -> i = j.
Proof.
  intros (_ & Hi & Hbi) (_ & Hj & Hbj).
  destruct (Nat.lt_trichotomy i j) as [Hlt|[Heq|Hgt]]; trivial.
  - rewrite (Hbj i Hlt) in Hi. discriminate.
  - rewrite (Hbi j Hgt) in Hj. discriminate.
Qed.

Lemma interp_first_above (i : nat) :
  first_above VX X i -> interp VX VY X = Num (segment VX VY X i).
Proof.
  intros Hi.
  destruct (interp_cases VX VY X) as [(j & Hj & Hres)|[Hnone _]].
  - now rewrite (first_above_unique Hi Hj).
  - destruct Hi as (Hlen & Hlt & _). rewrite Hnone in Hlt by lia.
    discriminate.
Qed.

Lemma interp_none_above :
  interp VX VY X = Undefined
  <-> forall j, (S j < length VX)%nat -> (X <? nth_num VX (S j)) = false.
Proof.
  destruct (interp_cases VX VY X) as [(i & (Hi & Hlt & _) & Hres)|[Hnone Hres]].
  - rewrite Hres. split; [discriminate|].
    intros Hnone. rewrite (Hnone i Hi) in Hlt. discriminate.
  - rewrite Hres. split; trivial. intros _ j Hj. apply Hnone. lia.
Qed.

End InterpAnyTable.

(** In an increasing table a breakpoint other than the last one opens its
    own segment. *)
Lemma breakpoint_first_above (VX : list float) (i : nat) :
  strictly_increasing VX -> (S i < length VX)%nat ->
  first_above VX (nth_num VX i) i.
Proof.
  intros Hinc Hi. repeat split; trivial; [now apply Hinc|].
  intros j Hj. destruct (Nat.eq_dec (S j) i) as [->|Hne].
  - apply ltb_irrefl.
  - apply ltb_asym. apply increasing_below; trivial; lia.
Qed.

(** X1. On every table, sorted or not and of any length, [interp] returns
    [undefined] exactly when no breakpoint other than the first lies above
    the query; otherwise it returns the segment formula at the first index
    [i] with [x[i+1] > X]. The first breakpoint [x[0]] is never compared
    with the query. *)
Theorem interp_on_any_table (VX VY : list float) (X : float) :
  (interp VX VY X = Undefined
   <-> forall j, (S j < length VX)%nat -> (X <? nth_num VX (S j)) = false)
  /\ (forall i, first_above VX X i ->
        interp VX VY X = Num (segment VX VY X i)).
Proof.
  split; [apply interp_none_above | intros i; apply interp_first_above].
Qed.

(** X2. [interp] returns [undefined] for every query on an empty table and
    on a table with a single breakpoint, and for a NaN query on every
    table. *)
Theorem interp_undefined_on_degenerate_input
  (VX VY : list float) (x X : float) :
  interp [] VY X = Undefined
  /\ interp [x] VY X = Undefined
  /\ interp VX VY nan = Undefined.
Proof.
  repeat split; [|apply interp_nan].
  apply interp_none_above. intros j Hj. simpl in Hj. lia.
Qed.

(** X3. On a table with strictly increasing x-values, a query equal to a
    breakpoint [x[i]] other than the last returns [y[i]] (up to the sign of
    zero), provided [x[i]], [y[i]] and the slope of the segment that starts
    there are finite. *)
Theorem interp_at_breakpoint (VX VY : list float) (i : nat) :
  strictly_increasing VX ->
  (S i < length VX)%nat ->
  is_finite (nth_num VX i) = true ->
  is_finite (nth_num VY i) = true ->
  is_finite (slope VX VY i) = true ->
  exists y, interp VX VY (nth_num VX i) = Num y
            /\ (y =? nth_num VY i) = true.
Proof.
  intros Hinc Hi Hx Hy Hk. eexists. split.
  - apply interp_first_above. now apply breakpoint_first_above.
  - unfold segment. fold (slope VX VY i). rewrite (sub_diag _ Hx).
    apply add_zero_r; trivial. now apply mul_finite_zero.
Qed.

Lemma interp_at_breakpoint_witness :
  exists y, interp [0; 1; 2] [0; 10; 40] (nth_num [0; 1; 2] 1) = Num y
            /\ (y =? nth_num [0; 10; 40] 1) = true.
Proof.
  apply (@interp_at_breakpoint [0; 1; 2] [0; 10; 40] 1).
  - intros [|[|i]] Hi; simpl in Hi; try reflexivity; lia.
  - simpl; lia.
  - reflexivity.
  - reflexivity.
  - reflexivity.
Defined.

(** X4. When the y-table is too short to hold [y[i+1]] for the segment [i]
    that [interp] selects, the missing entry is read as [undefined] and the
    result is the number NaN, not [undefined] and not an error. *)
Theorem interp_short_y_table (VX VY : list float) (X : float) (i : nat) :
  first_above VX X i -> (length VY <= S i)%nat ->
  interp VX VY X = Num nan.
Proof.
  intros Hi Hlen. rewrite (interp_first_above VY Hi). unfold segment.
  rewrite (nth_num_out VY Hlen).
  now rewrite sub_nan_l, div_nan_l, mul_nan_l, add_nan_r.
Qed.

Lemma interp_short_y_table_witness :
  interp [0; 1; 2] [5] 0.5 = Num nan.
Proof.
  apply (@interp_short_y_table [0; 1; 2] [5] 0.5 0).
  - repeat split; [simpl; lia | intros j Hj; lia].
  - simpl; lia.
Defined.

(** ** The samples of [getSpeedDistribution] *)

Section Samples.

Context `{Math}.

Lemma speed_loop_range (omega v0 dR : float) (n : nat) (localR : float) :
  map range (speed_loop omega v0 dR n localR) = speeds dR n localR.
Proof.
  revert localR. induction n as [|n IH]; intros localR; simpl; [|rewrite IH];
    reflexivity.
Qed.

Lemma speed_loop_not_negative (omega v0 dR : float) (n : nat)
  (localR : float) :
  Forall (fun s => (localVelocity s <? 0) = false)
    (speed_loop omega v0 dR n localR).
Proof.
  revert localR. induction n as [|n IH]; intros localR; simpl; constructor;
    [apply sqrt_not_negative | apply IH].
Qed.

Lemma speed_loop_velocity_signs (omega v0 dR : float) (n : nat)
  (localR : float) :
  map localVelocity (speed_loop (- omega) v0 dR n localR)
  = map localVelocity (speed_loop omega v0 dR n localR)
  /\ map localVelocity (speed_loop omega (- v0) dR n localR)
     = map localVelocity (speed_loop omega v0 dR n localR).
Proof.
  revert localR. induction n as [|n IH]; intros localR; [now split|].
  destruct (IH (localR + dR)) as [IHo IHv].
  cbn [speed_loop map localVelocity]. rewrite IHo, IHv.
  now rewrite mul_opp_l, !square_opp.
Qed.

End Samples.

(** A progression that starts at [r] and advances by [dR]. *)
Lemma progression (dR r : float) (N : nat) :
  let rs := speeds dR N r in
  length rs = N
  /\ ((0 < N)%nat -> nth 0 rs nan = r)
  /\ forall i, (S i < N)%nat -> nth (S i) rs nan = nth i rs nan + dR.
Proof.
  simpl. repeat split.
  - revert r. induction N as [|N IH]; intros r; simpl; [|rewrite IH];
      reflexivity.
  - destruct N; [lia | reflexivity].
  - intros i Hi. now apply speeds_step.
Qed.

(** X5. [getSpeedDistribution] returns [N] samples whose radii start at
    half a step, [R/N * 0.5], and each add the step [R/N] to the previous
    one; the radii depend neither on RPM nor on the forward speed and are
    the same in both variants. *)
Theorem getSpeedDistribution_radii `{Math} (RPM R v0 : float) (N : nat) :
  let dR := R / of_nat N in
  let rs1 := map range (Variant1.getSpeedDistribution RPM R v0 N) in
  let rs2 := map range (Variant2.getSpeedDistribution RPM R v0 N) in
  (length rs1 = N
   /\ ((0 < N)%nat -> nth 0 rs1 nan = dR * 0.5)
   /\ forall i, (S i < N)%nat -> nth (S i) rs1 nan = nth i rs1 nan + dR)
  /\ rs2 = rs1.
Proof.
  intros dR rs1 rs2. subst rs1 rs2.
  unfold Variant1.getSpeedDistribution, Variant2.getSpeedDistribution.
  rewrite !speed_loop_range. split; [apply progression | reflexivity].
Qed.

(** X6. No sample of [getSpeedDistribution] has a negative resultant
    velocity: [localVelocity] is a square root, so it is never below zero
    (it may be NaN), in both variants. *)
Theorem localVelocity_not_negative `{Math} (RPM R v0 : float) (N : nat) :
  Forall (fun s => (localVelocity s <? 0) = false)
    (Variant1.getSpeedDistribution RPM R v0 N)
  /\ Forall (fun s => (localVelocity s <? 0) = false)
       (Variant2.getSpeedDistribution RPM R v0 N).
Proof. split; apply speed_loop_not_negative. Qed.

(** X7. The resultant velocities do not depend on the direction of rotation
    or of flight: negating RPM, or negating the forward speed, leaves the
    [localVelocity] of every sample exactly unchanged, in both variants. *)
Theorem localVelocity_ignores_signs `{Math} (RPM R v0 : float) (N : nat) :
  (map localVelocity (Variant1.getSpeedDistribution (- RPM) R v0 N)
   = map localVelocity (Variant1.getSpeedDistribution RPM R v0 N)
   /\ map localVelocity (Variant1.getSpeedDistribution RPM R (- v0) N)
      = map localVelocity (Variant1.getSpeedDistribution RPM R v0 N))
  /\ (map localVelocity (Variant2.getSpeedDistribution (- RPM) R v0 N)
      = map localVelocity (Variant2.getSpeedDistribution RPM R v0 N)
      /\ map localVelocity (Variant2.getSpeedDistribution RPM R (- v0) N)
         = map localVelocity (Variant2.getSpeedDistribution RPM R v0 N)).
Proof.
  unfold Variant1.getSpeedDistribution, Variant2.getSpeedDistribution,
    Variant1.angular_speed, Variant2.angular_speed.
  rewrite !mul_opp_r, div_opp_l.
  split; apply speed_loop_velocity_signs.
Qed.

(** ** The sections and the totals of [getSingleBladeForces] *)

Section Totals.

Variable section : SectionSample -> SectionForce.

(** The thrust and the torque accumulators are running sums. *)
Lemma force_loop_totals (samples : list SectionSample) (acc : Summary) :
  totalThrust (snd (force_loop section samples acc))
  = fold_left (fun t f => t + thrust f) (map section samples) (totalThrust acc)
  /\ totalTorque (snd (force_loop section samples acc))
     = fold_left (fun t f => t + torque f) (map section samples)
         (totalTorque acc).
Proof.
  revert acc. induction samples as [|s rest IH]; intros acc; simpl.
  - now split.
  - match goal with
    | |- context [force_loop section rest ?a] =>
        specialize (IH a); destruct (force_loop section rest a) as [fs out]
    end.
    exact IH.
Qed.

(** Totals of sections that are zero or NaN are zero or NaN. *)
Lemma force_loop_idle (samples : list SectionSample) (acc : Summary) :
  (forall s, idle_force (section s)) ->
  zero_or_nan (totalThrust acc) = true ->
  zero_or_nan (totalTorque acc) = true ->
  zero_or_nan (totalThrust (snd (force_loop section samples acc))) = true
  /\ zero_or_nan (totalTorque (snd (force_loop section samples acc))) = true.
Proof.
  intros Hidle. revert acc.
  induction samples as [|s rest IH]; intros acc HT HQ; simpl.
  - now split.
  - match goal with
    | |- context [force_loop section rest ?a] =>
        specialize (IH a); destruct (force_loop section rest a) as [fs out]
    end.
    destruct (Hidle s) as (Ht & _ & Hq).
    simpl in *. apply IH; now apply add_zero_or_nan.
Qed.

End Totals.

Lemma Forall_of_map (A B : Type) (P : B -> Prop) (f : A -> B) (l : list A) :
  (forall a, P (f a)) -> Forall P (map f l).
Proof. intros HP. induction l; simpl; constructor; trivial. Qed.

Section BladeTotals.

Context `{Math}.

Lemma getSingleBladeForces1_totals (RX AX SX : list float)
  (Cx0 RPM v0 Ro : float) (AX_CY CY POLAR VX dAVX : list float) :
  let r := Variant1.getSingleBladeForces
             RX AX SX Cx0 RPM v0 Ro AX_CY CY POLAR VX dAVX in
  totalThrust (summary r)
  = fold_left (fun t f => t + thrust f) (forceDistribution r) 0
  /\ totalTorque (summary r)
     = fold_left (fun t f => t + torque f) (forceDistribution r) 0.
Proof.
  unfold Variant1.getSingleBladeForces.
  match goal with
  | |- context [force_loop ?f ?l ?a] =>
      pose proof (force_loop_forces f l a) as Hforces;
      pose proof (force_loop_totals f l a) as Htotals;
      destruct (force_loop f l a) as [fs out]
  end.
  simpl in *. now rewrite Hforces.
Qed.

Lemma getSingleBladeForces2_totals (RX AX SX : list float)
  (RPM v0 Ro : float) (AX_CY CY CX VX dAVX : list float) :
  let r := Variant2.getSingleBladeForces
             RX AX SX RPM v0 Ro AX_CY CY CX VX dAVX in
  totalThrust (summary r)
  = fold_left (fun t f => t + thrust f) (forceDistribution r) 0
  /\ totalTorque (summary r)
     = fold_left (fun t f => t + torque f) (forceDistribution r) 0.
Proof.
  unfold Variant2.getSingleBladeForces.
  match goal with
  | |- context [force_loop ?f ?l ?a] =>
      pose proof (force_loop_forces f l a) as Hforces;
      pose proof (force_loop_totals f l a) as Htotals;
      destruct (force_loop f l a) as [fs out]
  end.
  simpl in *. now rewrite Hforces.
Qed.

(** A failed lookup in one section makes the totals NaN. *)
Lemma getSingleBladeForces1_nan (RX AX SX : list float)
  (Cx0 RPM v0 Ro : float) (AX_CY CY POLAR VX dAVX : list float)
  (s : SectionSample) :
  let r := Variant1.getSingleBladeForces
             RX AX SX Cx0 RPM v0 Ro AX_CY CY POLAR VX dAVX in
  In s (Variant1.getSpeedDistribution RPM (last_breakpoint RX) v0
          (length RX)) ->
  lookup_fails RX AX SX AX_CY (pitch_correction VX dAVX v0) s ->
  totalThrust (summary r) = nan /\ totalTorque (summary r) = nan.
Proof.
  intros r Hin Hfail. subst r.
  pose proof (section_force1_nan Cx0 Ro CY POLAR Hfail) as Hnan.
  unfold Variant1.getSingleBladeForces.
  fold (pitch_correction VX dAVX v0).
  match goal with
  | |- context [force_loop ?f ?l ?a] =>
      pose proof (@force_loop_nan f l a) as Htotals;
      destruct (force_loop f l a) as [fs out]
  end.
  simpl in *. apply Htotals. right. now exists s.
Qed.

Lemma getSingleBladeForces2_nan (RX AX SX : list float)
  (RPM v0 Ro : float) (AX_CY CY CX VX dAVX : list float)
  (s : SectionSample) :
  let r := Variant2.getSingleBladeForces
             RX AX SX RPM v0 Ro AX_CY CY CX VX dAVX in
  In s (Variant2.getSpeedDistribution RPM (last_breakpoint RX) v0
          (length RX)) ->
  lookup_fails RX AX SX AX_CY (pitch_correction VX dAVX v0) s ->
  totalThrust (summary r) = nan /\ totalTorque (summary r) = nan.
Proof.
  intros r Hin Hfail. subst r.
  pose proof (section_force2_nan Ro CY CX Hfail) as Hnan.
  unfold Variant2.getSingleBladeForces.
  fold (pitch_correction VX dAVX v0).
  match goal with
  | |- context [force_loop ?f ?l ?a] =>
      pose proof (@force_loop_nan f l a) as Htotals;
      destruct (force_loop f l a) as [fs out]
  end.
  simpl in *. apply Htotals. right. now exists s.
Qed.

End BladeTotals.

(** X8. [getSingleBladeForces] cuts the blade into as many sections as [RX]
    has radii: its [speedDistribution] is the result of
    [getSpeedDistribution] for the tip radius [RX[N-1]] and [N = RX.length],
    and [speedDistribution] and [forceDistribution] both have [N] entries,
    in both variants. *)
Theorem getSingleBladeForces_sections `{Math}
  (RX AX SX : list float) (Cx0 RPM v0 Ro : float)
  (AX_CY CY POLAR CX VX dAVX : list float) :
  let r1 := Variant1.getSingleBladeForces
              RX AX SX Cx0 RPM v0 Ro AX_CY CY POLAR VX dAVX in
  let r2 := Variant2.getSingleBladeForces
              RX AX SX RPM v0 Ro AX_CY CY CX VX dAVX in
  (speedDistribution r1
   = Variant1.getSpeedDistribution RPM (last_breakpoint RX) v0 (length RX)
   /\ length (speedDistribution r1) = length RX
   /\ length (forceDistribution r1) = length RX)
  /\ (speedDistribution r2
      = Variant2.getSpeedDistribution RPM (last_breakpoint RX) v0 (length RX)
      /\ length (speedDistribution r2) = length RX
      /\ length (forceDistribution r2) = length RX).
Proof.
  intros r1 r2.
  destruct (getSingleBladeForces1_forces RX AX SX Cx0 RPM v0 Ro AX_CY CY
              POLAR VX dAVX) as [Hs1 Hf1].
  destruct (getSingleBladeForces2_forces RX AX SX RPM v0 Ro AX_CY CY
              CX VX dAVX) as [Hs2 Hf2].
  fold r1 in Hs1, Hf1. fold r2 in Hs2, Hf2.
  rewrite Hf1, Hf2, !length_map, Hs1, Hs2.
  unfold Variant1.getSpeedDistribution, Variant2.getSpeedDistribution.
  rewrite !speed_loop_length. repeat split.
Qed.

(** X10. The summary's [totalThrust] and [totalTorque] are the sums, taken
    from 0 and from the root to the tip, of the thrusts and of the torques
    listed in [forceDistribution], in both variants. *)
Theorem totals_are_running_sums `{Math}
  (RX AX SX : list float) (Cx0 RPM v0 Ro : float)
  (AX_CY CY POLAR CX VX dAVX : list float) :
  let r1 := Variant1.getSingleBladeForces
              RX AX SX Cx0 RPM v0 Ro AX_CY CY POLAR VX dAVX in
  let r2 := Variant2.getSingleBladeForces
              RX AX SX RPM v0 Ro AX_CY CY CX VX dAVX in
  (totalThrust (summary r1)
   = fold_left (fun t f => t + thrust f) (forceDistribution r1) 0
   /\ totalTorque (summary r1)
      = fold_left (fun t f => t + torque f) (forceDistribution r1) 0)
  /\ (totalThrust (summary r2)
      = fold_left (fun t f => t + thrust f) (forceDistribution r2) 0
      /\ totalTorque (summary r2)
         = fold_left (fun t f => t + torque f) (forceDistribution r2) 0).
Proof.
  split; [apply getSingleBladeForces1_totals
         | apply getSingleBladeForces2_totals].
Qed.

(** X11. For an empty [RX], [getSingleBladeForces] returns empty
    distributions and a summary of zeros, whatever the other arguments, in
    both variants. *)
Theorem getSingleBladeForces_empty_blade `{Math}
  (AX SX : list float) (Cx0 RPM v0 Ro : float)
  (AX_CY CY POLAR CX VX dAVX : list float) :
  let nothing :=
    {| speedDistribution := [];
       forceDistribution := [];
       summary := {| totalThrust := 0; totalDrag := 0; totalTorque := 0 |} |} in
  Variant1.getSingleBladeForces [] AX SX Cx0 RPM v0 Ro AX_CY CY POLAR VX dAVX
  = nothing
  /\ Variant2.getSingleBladeForces [] AX SX RPM v0 Ro AX_CY CY CX VX dAVX
     = nothing.
Proof. split; reflexivity. Qed.

(** X12. For an [RX] with a single radius, [getSingleBladeForces] computes
    one section whose area lookup finds no segment: its thrust, drag and
    torque are NaN, and so are [totalThrust] and [totalTorque], whatever
    the other arguments, in both variants. *)
Theorem single_radius_blade_is_nan `{Math}
  (R : float) (AX SX : list float) (Cx0 RPM v0 Ro : float)
  (AX_CY CY POLAR CX VX dAVX : list float) :
  let r1 := Variant1.getSingleBladeForces
              [R] AX SX Cx0 RPM v0 Ro AX_CY CY POLAR VX dAVX in
  let r2 := Variant2.getSingleBladeForces
              [R] AX SX RPM v0 Ro AX_CY CY CX VX dAVX in
  (forceDistribution r1 = [nan_force]
   /\ totalThrust (summary r1) = nan /\ totalTorque (summary r1) = nan)
  /\ (forceDistribution r2 = [nan_force]
      /\ totalThrust (summary r2) = nan /\ totalTorque (summary r2) = nan).
Proof.
  intros r1 r2.
  assert (forall s dAlpha, lookup_fails [R] AX SX AX_CY dAlpha s) as Hfail.
  { intros s dAlpha. right. left. apply interp_none_above.
    intros j Hj. simpl in Hj. lia. }
  split.
  - destruct (getSingleBladeForces1_forces [R] AX SX Cx0 RPM v0 Ro AX_CY CY
                POLAR VX dAVX) as [Hs Hf].
    destruct (getSingleBladeForces1_totals [R] AX SX Cx0 RPM v0 Ro AX_CY CY
                POLAR VX dAVX) as [HT HQ].
    fold r1 in Hs, Hf, HT, HQ. rewrite HT, HQ, Hf, Hs.
    cbn [length Variant1.getSpeedDistribution speed_loop map fold_left].
    rewrite section_force1_nan by apply Hfail.
    cbn [fold_left thrust torque nan_force]. now rewrite !add_nan_r.
  - destruct (getSingleBladeForces2_forces [R] AX SX RPM v0 Ro AX_CY CY
                CX VX dAVX) as [Hs Hf].
    destruct (getSingleBladeForces2_totals [R] AX SX RPM v0 Ro AX_CY CY
                CX VX dAVX) as [HT HQ].
    fold r2 in Hs, Hf, HT, HQ. rewrite HT, HQ, Hf, Hs.
    cbn [length Variant2.getSpeedDistribution speed_loop map fold_left].
    rewrite section_force2_nan by apply Hfail.
    cbn [fold_left thrust torque nan_force]. now rewrite !add_nan_r.
Qed.

(** ** The points of [getSpeedThrustPerformance] *)

Section Points.

Variables (blade : float -> Summary) (nBlade omega area Ro : float).

(** At forward speed zero the dynamic pressure is zero or NaN, and the
    thrust is divided by it. *)
Lemma sweep_point_at_rest (V : float) :
  is_zero V = true ->
  is_finite (Point.thrustCoeff (sweep_point blade nBlade omega area Ro V))
  = false.
Proof.
  intros HV. unfold sweep_point. cbn [Point.thrustCoeff].
  apply div_by_zero_or_nan.
  repeat apply mul_zero_or_nan_r. unfold zero_or_nan. now rewrite HV.
Qed.

(** Without blades the thrust and the power are zero or NaN, and their
    ratio is NaN. *)
Lemma sweep_point_no_blade (V : float) :
  is_zero nBlade = true ->
  let p := sweep_point blade nBlade omega area Ro V in
  zero_or_nan (Point.thrust p) = true
  /\ zero_or_nan (Point.torque p) = true
  /\ zero_or_nan (Point.power p) = true
  /\ Point.thrust2power p = nan.
Proof.
  intros Hn. unfold sweep_point.
  cbn [Point.thrust Point.torque Point.power Point.thrust2power].
  assert (forall x, zero_or_nan (x * nBlade) = true) as Hx
    by (intros x; apply mul_zero_or_nan_r; unfold zero_or_nan;
        now rewrite Hn).
  assert (forall x, zero_or_nan (x * nBlade * omega) = true) as Hp
    by (intros x; apply mul_zero_or_nan_l, Hx).
  split; [apply Hx|]. split; [apply Hx|]. split; [apply Hp|].
  apply div_zero_or_nan_both; [apply Hx | apply Hp].
Qed.

(** A NaN blade summary makes every force-derived field of the point NaN. *)
Lemma sweep_point_nan (V : float) :
  totalThrust (blade V) = nan /\ totalTorque (blade V) = nan ->
  nan_point (sweep_point blade nBlade omega area Ro V).
Proof.
  intros [HT HQ]. unfold nan_point, sweep_point.
  cbn [Point.thrust Point.torque Point.power Point.thrustCoeff
       Point.thrust2power].
  rewrite HT, HQ. now rewrite !mul_nan_l, !div_nan_l.
Qed.

End Points.

(** X14. When the sweep starts at forward speed zero, the thrust
    coefficient of the first point is not a finite number: the thrust is
    divided by [area * Q] with a dynamic pressure [Q] of zero, which gives
    an infinity or NaN, in both variants. *)
Theorem thrustCoeff_at_rest_is_not_finite `{Math}
  (d1 : Variant1.InitData) (d2 : Variant2.InitData) :
  is_zero (v0 (Variant1.environment d1)) = true ->
  is_zero (v0 (Variant2.environment d2)) = true ->
  (exists p rest, Variant1.getSpeedThrustPerformance d1 = p :: rest
                  /\ is_finite (Point.thrustCoeff p) = false)
  /\ (exists p rest, Variant2.getSpeedThrustPerformance d2 = p :: rest
                     /\ is_finite (Point.thrustCoeff p) = false).
Proof.
  intros H1 H2.
  unfold Variant1.getSpeedThrustPerformance, Variant2.getSpeedThrustPerformance.
  rewrite !sweep_loop_points, !Nat.add_1_r. cbn [speeds map].
  split; do 2 eexists; (split; [reflexivity|]);
    now apply sweep_point_at_rest.
Qed.

Lemma thrustCoeff_at_rest_is_not_finite_witness :
  (exists p rest, Variant1.getSpeedThrustPerformance testAirScrew1 = p :: rest
                  /\ is_finite (Point.thrustCoeff p) = false)
  /\ (exists p rest,
        Variant2.getSpeedThrustPerformance testAirScrew2 = p :: rest
        /\ is_finite (Point.thrustCoeff p) = false).
Proof.
  apply (@thrustCoeff_at_rest_is_not_finite fdlibm testAirScrew1 testAirScrew2);
    reflexivity.
Defined.

(** X15. With a blade count of zero, every point of the sweep has a thrust,
    a torque and a power that are zero or NaN, and a thrust-to-power ratio
    that is NaN, in both variants. *)
Theorem no_blade_thrust2power_is_nan `{Math}
  (d1 : Variant1.InitData) (d2 : Variant2.InitData) :
  is_zero (nBlade (Variant1.geometry d1)) = true ->
  is_zero (nBlade (Variant2.geometry d2)) = true ->
  let idle p :=
    zero_or_nan (Point.thrust p) = true
    /\ zero_or_nan (Point.torque p) = true
    /\ zero_or_nan (Point.power p) = true
    /\ Point.thrust2power p = nan in
  Forall idle (Variant1.getSpeedThrustPerformance d1)
  /\ Forall idle (Variant2.getSpeedThrustPerformance d2).
Proof.
  intros H1 H2 idle.
  unfold Variant1.getSpeedThrustPerformance, Variant2.getSpeedThrustPerformance.
  rewrite !sweep_loop_points.
  split; apply Forall_of_map; intros V; now apply sweep_point_no_blade.
Qed.

Lemma no_blade_thrust2power_is_nan_witness :
  let idle p :=
    zero_or_nan (Point.thrust p) = true
    /\ zero_or_nan (Point.torque p) = true
    /\ zero_or_nan (Point.power p) = true
    /\ Point.thrust2power p = nan in
  Forall idle (Variant1.getSpeedThrustPerformance no_blade_config)
  /\ Forall idle (Variant2.getSpeedThrustPerformance no_blade_config2).
Proof.
  apply (@no_blade_thrust2power_is_nan fdlibm no_blade_config no_blade_config2);
    reflexivity.
Defined.

(** ** A medium of density zero *)

Section Vacuum.

Lemma localQ_vacuum (Ro v : float) :
  is_zero Ro = true -> zero_or_nan (0.5 * Ro * v * v) = true.
Proof.
  intros HRo. do 2 apply mul_zero_or_nan_l. apply mul_zero_or_nan_r.
  unfold zero_or_nan. now rewrite HRo.
Qed.

Lemma section_force1_vacuum (RX AX SX : list float) (Cx0 Ro : float)
  (AX_CY CY POLAR : list float) (dAlpha : value) (s : SectionSample) :
  is_zero Ro = true ->
  idle_force (Variant1.section_force RX AX SX Cx0 Ro AX_CY CY POLAR dAlpha s).
Proof.
  intros HRo. unfold idle_force, Variant1.section_force.
  cbn [thrust drag torque].
  pose proof (localQ_vacuum (localVelocity s) HRo) as HQ.
  split; [apply mul_zero_or_nan_r, mul_zero_or_nan_r, HQ|].
  split; [apply mul_zero_or_nan_r, mul_zero_or_nan_r, HQ|].
  apply mul_zero_or_nan_l, mul_zero_or_nan_r, mul_zero_or_nan_r, HQ.
Qed.

Lemma section_force2_vacuum (RX AX SX : list float) (Ro : float)
  (AX_CY CY CX : list float) (dAlpha : value) (s : SectionSample) :
  is_zero Ro = true ->
  idle_force (Variant2.section_force RX AX SX Ro AX_CY CY CX dAlpha s).
Proof.
  intros HRo. unfold idle_force, Variant2.section_force.
  cbn [thrust drag torque].
  pose proof (localQ_vacuum (localVelocity s) HRo) as HQ.
  split; [apply mul_zero_or_nan_r, mul_zero_or_nan_r, HQ|].
  split; [apply mul_zero_or_nan_r, mul_zero_or_nan_r, HQ|].
  apply mul_zero_or_nan_l, mul_zero_or_nan_r, mul_zero_or_nan_r, HQ.
Qed.

Context `{Math}.

Lemma blade1_vacuum (d : Variant1.InitData) (V : float) :
  is_zero (Ro (Variant1.environment d)) = true ->
  zero_or_nan (totalThrust (blade1 d V)) = true
  /\ zero_or_nan (totalTorque (blade1 d V)) = true.
Proof.
  intros HRo. unfold blade1, Variant1.getSingleBladeForces.
  match goal with
  | |- context [force_loop ?f ?l ?a] =>
      pose proof (@force_loop_idle f l a) as Htotals;
      destruct (force_loop f l a) as [fs out]
  end.
  simpl in *. apply Htotals; try reflexivity.
  intros s. now apply section_force1_vacuum.
Qed.

Lemma blade2_vacuum (d : Variant2.InitData) (V : float) :
  is_zero (Ro (Variant2.environment d)) = true ->
  zero_or_nan (totalThrust (blade2 d V)) = true
  /\ zero_or_nan (totalTorque (blade2 d V)) = true.
Proof.
  intros HRo. unfold blade2, Variant2.getSingleBladeForces.
  match goal with
  | |- context [force_loop ?f ?l ?a] =>
      pose proof (@force_loop_idle f l a) as Htotals;
      destruct (force_loop f l a) as [fs out]
  end.
  simpl in *. apply Htotals; try reflexivity.
  intros s. now apply section_force2_vacuum.
Qed.

End Vacuum.

Lemma sweep_point_vacuum (blade : float -> Summary)
  (nBlade omega area Ro V : float) :
  is_zero Ro = true ->
  zero_or_nan (totalThrust (blade V)) = true ->
  zero_or_nan (totalTorque (blade V)) = true ->
  let p := sweep_point blade nBlade omega area Ro V in
  zero_or_nan (Point.thrust p) = true
  /\ zero_or_nan (Point.torque p) = true
  /\ zero_or_nan (Point.power p) = true
  /\ Point.thrustCoeff p = nan
  /\ Point.thrust2power p = nan.
Proof.
  intros HRo HT HQ. unfold sweep_point.
  cbn [Point.thrust Point.torque Point.power Point.thrustCoeff
       Point.thrust2power].
  pose proof (mul_zero_or_nan_l nBlade _ HT) as Ht.
  pose proof (mul_zero_or_nan_l nBlade _ HQ) as Hq.
  pose proof (mul_zero_or_nan_l omega _ Hq) as Hp.
  pose proof (mul_zero_or_nan_r area _ (localQ_vacuum V HRo)) as HaQ.
  repeat split; trivial; now apply div_zero_or_nan_both.
Qed.

(** X16. With a density of zero, every point of the sweep has a thrust, a
    torque and a power that are zero or NaN, and a thrust coefficient and a
    thrust-to-power ratio that are NaN, in both variants. *)
Theorem zero_density_gives_no_force `{Math}
  (d1 : Variant1.InitData) (d2 : Variant2.InitData) :
  is_zero (Ro (Variant1.environment d1)) = true ->
  is_zero (Ro (Variant2.environment d2)) = true ->
  let idle p :=
    zero_or_nan (Point.thrust p) = true
    /\ zero_or_nan (Point.torque p) = true
    /\ zero_or_nan (Point.power p) = true
    /\ Point.thrustCoeff p = nan
    /\ Point.thrust2power p = nan in
  Forall idle (Variant1.getSpeedThrustPerformance d1)
  /\ Forall idle (Variant2.getSpeedThrustPerformance d2).
Proof.
  intros H1 H2 idle.
  unfold Variant1.getSpeedThrustPerformance, Variant2.getSpeedThrustPerformance.
  rewrite !sweep_loop_points. split; apply Forall_of_map; intros V.
  - apply sweep_point_vacuum with (blade := blade1 d1); trivial;
      now apply blade1_vacuum.
  - apply sweep_point_vacuum with (blade := blade2 d2); trivial;
      now apply blade2_vacuum.
Qed.

Lemma zero_density_gives_no_force_witness :
  let idle p :=
    zero_or_nan (Point.thrust p) = true
    /\ zero_or_nan (Point.torque p) = true
    /\ zero_or_nan (Point.power p) = true
    /\ Point.thrustCoeff p = nan
    /\ Point.thrust2power p = nan in
  Forall idle (Variant1.getSpeedThrustPerformance vacuum_config1)
  /\ Forall idle (Variant2.getSpeedThrustPerformance vacuum_config2).
Proof.
  apply (@zero_density_gives_no_force fdlibm vacuum_config1 vacuum_config2);
    reflexivity.
Defined.

(** X17. A failed lookup reaches the caller as a NaN point, not as an
    error: when, at a forward speed [V] of the sweep, an interpolation made
    for one section of the blade finds no segment, the point reported for
    [V] has its speed [V * 3.6] and a thrust, torque, power, thrust
    coefficient and thrust-to-power ratio that are all NaN, in both
    variants. *)
Theorem failed_lookup_makes_nan_point `{Math}
  (d1 : Variant1.InitData) (d2 : Variant2.InitData) :
  (let g := Variant1.geometry d1 in
   let a := Variant1.aerodynamics d1 in
   let e := Variant1.environment d1 in
   forall V s,
     In V (speeds (step e) (nV e + 1) (v0 e)) ->
     In s (Variant1.getSpeedDistribution (RPM e) (last_breakpoint (RX g)) V
             (length (RX g))) ->
     lookup_fails (RX g) (AX g) (SX g) (Variant1.AX_CY a)
       (pitch_correction (or_default [] (VX g)) (or_default [] (dAVX g)) V) s ->
     exists p, In p (Variant1.getSpeedThrustPerformance d1)
               /\ Point.V p = V * 3.6 /\ nan_point p)
  /\ (let g := Variant2.geometry d2 in
      let a := Variant2.aerodynamics d2 in
      let e := Variant2.environment d2 in
      forall V s,
        In V (speeds (step e) (nV e + 1) (v0 e)) ->
        In s (Variant2.getSpeedDistribution (RPM e) (last_breakpoint (RX g)) V
                (length (RX g))) ->
        lookup_fails (RX g) (AX g) (SX g) (Variant2.AX_CY a)
          (pitch_correction (or_default [] (VX g)) (or_default [] (dAVX g)) V)
          s ->
        exists p, In p (Variant2.getSpeedThrustPerformance d2)
                  /\ Point.V p = V * 3.6 /\ nan_point p).
Proof.
  split; intros g a e V s HV Hs Hfail.
  - unfold Variant1.getSpeedThrustPerformance. fold g a e (step e).
    rewrite sweep_loop_points. eexists. split; [apply in_map, HV|].
    split; [reflexivity|]. apply sweep_point_nan.
    now apply getSingleBladeForces1_nan with s.
  - unfold Variant2.getSpeedThrustPerformance. fold g a e (step e).
    rewrite sweep_loop_points. eexists. split; [apply in_map, HV|].
    split; [reflexivity|]. apply sweep_point_nan.
    now apply getSingleBladeForces2_nan with s.
Qed.

Lemma failed_lookup_makes_nan_point_witness :
  exists p, In p (Variant1.getSpeedThrustPerformance (sweep_config 0 300 1))
            /\ Point.V p = 300 * 3.6 /\ nan_point p.
Proof.
  refine (proj1 (@failed_lookup_makes_nan_point fdlibm
                   (sweep_config 0 300 1) testAirScrew2) 300
            (hd {| range := 0; localVelocity := 0; localAoA := 0 |}
               (Variant1.getSpeedDistribution 95
                  (last_breakpoint (RX (Variant1.geometry testAirScrew1))) 300
                  (length (RX (Variant1.geometry testAirScrew1))))) _ _ _).
  - vm_compute. right. left. reflexivity.
  - vm_compute. left. reflexivity.
  - left. reflexivity.
Defined.
